(** * scrapli_netconf.transport.systemssh

    A shallow embedding of [NetconfSystemSSHTransport]: the open-command
    builder, the PTY login dialogue driven by [_authenticate], and the two
    keepalive overrides.

    Python [bytes] are lists of [Byte.byte]; [str] values are [string]s.
    The PTY peer is a script of timed read events; everything the transport
    writes to it is kept in a log.  Exceptions are values of [exn]; a method
    returns an [outcome] together with the transport it leaves behind.
    Logger calls do not touch any state the transport reads back and are
    left out. *)

From Stdlib Require Import List Strings.String Strings.Byte Bool Arith Lia NArith.
Import ListNotations.

Local Open Scope string_scope.
Local Open Scope list_scope.
Local Open Scope nat_scope.

(** ** Byte strings *)

Module Bytes.

Definition bytes := list byte.

(** A Python literal [b"..."]. *)
Definition lit (s : string) : bytes := list_byte_of_string s.

(** [str.encode()]: the strings of this model already are byte sequences. *)
Definition encode (s : string) : bytes := list_byte_of_string s.

(** [bytes.lower()] touches the ASCII letters [A]..[Z] only. *)
Definition lower_byte (c : byte) : byte :=
  let n := Byte.to_N c in
  if (65 <=? n)%N && (n <=? 90)%N
  then match Byte.of_N (n + 32) with Some c' => c' | None => c end
  else c.

Definition lower (s : bytes) : bytes := map lower_byte s.

Fixpoint startswith (s prefix : bytes) {struct prefix} : bool :=
  match prefix, s with
  | [], _ => true
  | _ :: _, [] => false
  | p :: prefix', c :: s' => Byte.eqb p c && startswith s' prefix'
  end.

(** [needle in hay] on bytes objects: [needle] occurs as a contiguous run. *)
Fixpoint bytes_in (needle hay : bytes) : bool :=
  startswith hay needle ||
  match hay with
  | [] => false
  | _ :: hay' => bytes_in needle hay'
  end.

(** Number of positions of [hay] at which [needle] starts (overlaps
    counted); used to speak about "how many occurrences". *)
Fixpoint occurrences (needle hay : bytes) : nat :=
  (if startswith hay needle then 1 else 0) +
  match hay with
  | [] => 0
  | _ :: hay' => occurrences needle hay'
  end.

End Bytes.
Import Bytes.

(** ** Exceptions, outcomes and the transport object *)

Inductive exn : Type :=
| ScrapliAuthenticationFailed (msg : string)
| NotImplementedError (msg : string)
| RuntimeError (msg : string)
| OperationTimeout (msg : string).

Inductive outcome : Type :=
| Returned (value : bytes)
| Raised (e : exn).

(** What one call of [session.read()] gives back. *)
Inductive read_result : Type :=
| Data (new_output : bytes)
| EOFError.

(** A read of the script completes [delay] ticks after it was issued. *)
Record read_event : Type := mkRead { delay : nat; payload : read_result }.

(** The spawned process as the transport sees it: the command it was
    started with and every buffer handed to [write], oldest first. *)
Record PtyProcess : Type := mkPty {
  argv : list string;
  written : list bytes
}.

(** The attributes of the transport the source reads or writes.
    [_timeout_ops] counts the same ticks as the delays of the reads;
    [session_lock] is [true] while the lock is held; [handler_calls] is a
    ghost log of the outputs [_ssh_message_handler] was called with. *)
Record Transport : Type := mkTransport {
  host : string;
  auth_password : string;
  _comms_return_char : string;
  _timeout_ops : nat;
  keepalive : bool;
  open_cmd : list string;
  session : PtyProcess;
  session_lock : bool;
  _isauthenticated : bool;
  handler_calls : list bytes
}.

Definition set_open_cmd (c : list string) (t : Transport) : Transport :=
  mkTransport (host t) (auth_password t) (_comms_return_char t) (_timeout_ops t)
    (keepalive t) c (session t) (session_lock t) (_isauthenticated t)
    (handler_calls t).

Definition set_session (p : PtyProcess) (t : Transport) : Transport :=
  mkTransport (host t) (auth_password t) (_comms_return_char t) (_timeout_ops t)
    (keepalive t) (open_cmd t) p (session_lock t) (_isauthenticated t)
    (handler_calls t).

Definition set_session_lock (l : bool) (t : Transport) : Transport :=
  mkTransport (host t) (auth_password t) (_comms_return_char t) (_timeout_ops t)
    (keepalive t) (open_cmd t) (session t) l (_isauthenticated t)
    (handler_calls t).

Definition set_isauthenticated (a : bool) (t : Transport) : Transport :=
  mkTransport (host t) (auth_password t) (_comms_return_char t) (_timeout_ops t)
    (keepalive t) (open_cmd t) (session t) (session_lock t) a
    (handler_calls t).

Definition note_handler_call (output : bytes) (t : Transport) : Transport :=
  mkTransport (host t) (auth_password t) (_comms_return_char t) (_timeout_ops t)
    (keepalive t) (open_cmd t) (session t) (session_lock t) (_isauthenticated t)
    (handler_calls t ++ [output]).

(** [self.session.write(data)] *)
Definition session_write (data : bytes) (t : Transport) : Transport :=
  set_session (mkPty (argv (session t)) (written (session t) ++ [data])) t.

(** [PtyProcess.spawn(cmd)] *)
Definition spawn (cmd : list string) : PtyProcess := mkPty cmd [].

(** How a call that may block on the peer ends: it finishes with an outcome
    and leaves the reads it did not consume, or it sits forever in
    [session.read()] (the script is exhausted; the locals of the loop are
    kept), or it sits forever in [session_lock.acquire()]. *)
Inductive run : Type :=
| Done (o : outcome) (t : Transport) (unread : list read_event)
| BlockedOnRead (output : bytes) (password_count : nat) (t : Transport)
| BlockedOnLock (t : Transport) (unread : list read_event).

(** [self.session_lock.release()] followed by a [raise] or a [return]:
    releasing a lock that is not held raises [RuntimeError] instead. *)
Definition release_then (o : outcome) (t : Transport) : outcome * Transport :=
  if session_lock t
  then (o, set_session_lock false t)
  else (Raised (RuntimeError "release unlocked lock"), t).

(** ** The messages of the source *)

Definition timeout_message : string :=
  "Timed out looking for SSH login password prompt".

Definition strict_key_message (t : Transport) : string :=
  "Failed to open connection to host " ++ host t ++
  ". Do you need to disable `auth_strict_key`?".

Definition password_repeat_message : string :=
  "`password` seen multiple times during session establishment, likely failed authentication".

Definition password_prompt : bytes := lit "password:".
Definition hello_marker : bytes := lit "<hello".

(** [b"password:" in output.lower()] and [b"<hello" in output.lower()] *)
Definition prompt_seen (output : bytes) : bool := bytes_in password_prompt (lower output).
Definition hello_seen (output : bytes) : bool := bytes_in hello_marker (lower output).

(** ** The timeout collaborator *)

(** The reads of a script that complete within [budget] ticks of the start
    of the operation, and the ones that do not. *)
Fixpoint arrived_by (budget : nat) (reads : list read_event)
  : list read_event * list read_event :=
  match reads with
  | [] => ([], [])
  | ev :: reads' =>
      if delay ev <=? budget
      then let (now, later) := arrived_by (budget - delay ev) reads' in
           (ev :: now, later)
      else ([], reads)
  end.

Definition total_delay (reads : list read_event) : nat :=
  fold_right (fun ev acc => delay ev + acc) 0 reads.

(** Modelled from the spec: the [operation_timeout] decorator of scrapli,
    which is imported by the source and not part of it.  It wraps a named
    operation with a configured duration and a fixed message; the wrapped
    operation runs against the reads that arrive before the deadline, and if
    it has not ended by then the decorator cancels it, releases the session
    lock and raises the timeout error carrying the message. *)
Definition operation_timeout (duration : Transport -> nat) (message : string)
    (wrapped : list read_event -> Transport -> run)
    (reads : list read_event) (t : Transport) : run :=
  let (now, later) := arrived_by (duration t) reads in
  match wrapped now t with
  | Done o t' unread => Done o t' (unread ++ later)
  | BlockedOnRead _ _ t' =>
      Done (Raised (OperationTimeout message)) (set_session_lock false t') later
  | BlockedOnLock t' unread =>
      Done (Raised (OperationTimeout message)) (set_session_lock false t')
           (unread ++ later)
  end.

(** ** NetconfSystemSSHTransport *)

Section NetconfSystemSSHTransport.

(** Methods inherited from scrapli's [SystemSSHTransport], which the source
    calls and does not define: the base command builder, the classifier of
    the peer's last words (it raises a specific diagnostic or returns), and
    the keepalive starter. *)
Variable super_build_open_cmd : Transport -> Transport.
Variable _ssh_message_handler : bytes -> option exn.
Variable _session_keepalive : Transport -> outcome * Transport.

(** [_build_open_cmd] *)
Definition _build_open_cmd (t : Transport) : Transport :=
  let t := super_build_open_cmd t in
  set_open_cmd (open_cmd t ++ ["-s"; "netconf"]) t.

(** The [except EOFError] branch of the loop. *)
Definition on_eof (output : bytes) (t : Transport) : outcome * Transport :=
  let t := note_handler_call output t in
  match _ssh_message_handler output with
  | Some e => (Raised e, t)
  | None =>
      let msg := strict_key_message t in
      release_then (Raised (ScrapliAuthenticationFailed msg)) t
  end.

(** The first [if] of the loop: answer a password prompt. *)
Definition answer_prompt (output : bytes) (password_count : nat) (t : Transport)
  : bytes * nat * Transport :=
  if prompt_seen output
  then ([],
        password_count + 1,
        session_write (encode (_comms_return_char t))
          (session_write (encode (auth_password t)) t))
  else (output, password_count, t).

(** One turn of [while True], given what [session.read()] produced. *)
Inductive turn : Type :=
| Continue (output : bytes) (password_count : nat) (t : Transport)
| Exit (o : outcome) (t : Transport).

Definition exit_with (r : outcome * Transport) : turn := Exit (fst r) (snd r).

Definition loop_body (r : read_result) (output : bytes) (password_count : nat)
    (t : Transport) : turn :=
  match r with
  | EOFError => exit_with (on_eof output t)
  | Data new_output =>
      let output := output ++ new_output in
      let '(output, password_count, t) := answer_prompt output password_count t in
      if 1 <? password_count
      then exit_with
             (release_then (Raised (ScrapliAuthenticationFailed password_repeat_message)) t)
      else if hello_seen output
      then exit_with (release_then (Returned output) (set_isauthenticated true t))
      else Continue output password_count t
  end.

Fixpoint auth_loop (reads : list read_event) (output : bytes)
    (password_count : nat) (t : Transport) : run :=
  match reads with
  | [] => BlockedOnRead output password_count t
  | ev :: reads' =>
      match loop_body (payload ev) output password_count t with
      | Exit o t' => Done o t' reads'
      | Continue output' password_count' t' =>
          auth_loop reads' output' password_count' t'
      end
  end.

(** The body of [_authenticate], before decoration. *)
Definition authenticate_body (reads : list read_event) (t : Transport) : run :=
  if session_lock t
  then BlockedOnLock t reads
  else auth_loop reads [] 0 (set_session_lock true t).

(** [_authenticate], as decorated in the source. *)
Definition _authenticate : list read_event -> Transport -> run :=
  operation_timeout _timeout_ops timeout_message authenticate_body.

(** [_open_netconf_pty] *)
Definition _open_netconf_pty (reads : list read_event) (t : Transport) : run :=
  let t := set_session (spawn (open_cmd t)) t in
  _authenticate reads t.

(** [open_netconf] *)
Definition open_netconf (reads : list read_event) (t : Transport) : run :=
  match _open_netconf_pty reads t with
  | Done (Returned login_bytes) t' unread =>
      if keepalive t'
      then match _session_keepalive t' with
           | (Raised e, t'') => Done (Raised e) t'' unread
           | (Returned _, t'') => Done (Returned login_bytes) t'' unread
           end
      else Done (Returned login_bytes) t' unread
  | r => r
  end.

(** [_keepalive_network] *)
Definition _keepalive_network (t : Transport) : outcome * Transport :=
  (Raised (NotImplementedError "`network` style keepalives not supported with netconf"), t).

(** [_keepalive_standard] *)
Definition _keepalive_standard (t : Transport) : outcome * Transport :=
  (Raised (NotImplementedError "keepalives not yet implemented"), t).

End NetconfSystemSSHTransport.

(** ** Vocabulary for statements about whole dialogues *)

(** The bytes a stretch of reads delivers, in receipt order. *)
Fixpoint received (reads : list read_event) : bytes :=
  match reads with
  | [] => []
  | ev :: reads' =>
      match payload ev with
      | Data new_output => new_output ++ received reads'
      | EOFError => received reads'
      end
  end.

(** A stretch of reads is quiet from accumulator [output] when every read
    delivers data and after none of them the accumulator shows the password
    prompt or the greeting marker. *)
Fixpoint quiet (output : bytes) (reads : list read_event) : bool :=
  match reads with
  | [] => true
  | ev :: reads' =>
      match payload ev with
      | EOFError => false
      | Data new_output =>
          negb (prompt_seen (output ++ new_output)) &&
          negb (hello_seen (output ++ new_output)) &&
          quiet (output ++ new_output) reads'
      end
  end.

(** The two buffers written in answer to one prompt. *)
Definition credential_writes (t : Transport) : list bytes :=
  [encode (auth_password t); encode (_comms_return_char t)].

(** No further read completes within [budget]: the script is exhausted or
    its next read takes longer. *)
Definition next_read_late (budget : nat) (reads : list read_event) : bool :=
  match reads with
  | [] => true
  | ev :: _ => budget <? delay ev
  end.

(** The transport a turn of the loop leaves behind. *)
Definition turn_transport (x : turn) : Transport :=
  match x with
  | Continue _ _ t => t
  | Exit _ t => t
  end.

(** ** Sample objects *)

Definition LF : string := String (Ascii.ascii_of_nat 10) EmptyString.

Definition sample_transport : Transport :=
  mkTransport "r1" "secret" LF 30 false ["ssh"; "r1"] (mkPty ["ssh"; "r1"] [])
    false false [].

(** A classifier in the manner of scrapli's: it knows one diagnostic. *)
Definition sample_handler (output : bytes) : option exn :=
  if bytes_in (lit "host key verification failed") (lower output)
  then Some (ScrapliAuthenticationFailed "Host key verification failed for host r1")
  else None.

Definition sample_base_builder (t : Transport) : Transport :=
  set_open_cmd (open_cmd t ++ ["-o"; "StrictHostKeyChecking=yes"]) t.

Definition chunk (d : nat) (s : string) : read_event := mkRead d (Data (lit s)).
Definition eof (d : nat) : read_event := mkRead d EOFError.

(** ** Vocabulary for invariants of the dialogue *)

(** The transport a run leaves behind, however it ends. *)
Definition run_transport (r : run) : Transport :=
  match r with
  | Done _ t _ => t
  | BlockedOnRead _ _ t => t
  | BlockedOnLock t _ => t
  end.

(** [t'] has the configuration of [t]: the attributes the dialogue is
    driven by, and the command of the spawned process. *)
Definition same_config (t t' : Transport) : Prop :=
  host t' = host t /\
  auth_password t' = auth_password t /\
  _comms_return_char t' = _comms_return_char t /\
  _timeout_ops t' = _timeout_ops t /\
  keepalive t' = keepalive t /\
  open_cmd t' = open_cmd t /\
  argv (session t') = argv (session t).

(** What the session receives when [k] prompts are answered. *)
Fixpoint answers (k : nat) (t : Transport) : list bytes :=
  match k with
  | 0 => []
  | S k' => credential_writes t ++ answers k' t
  end.

(** Some read of the script signals end of stream. *)
Definition has_eof (reads : list read_event) : bool :=
  existsb (fun ev => match payload ev with EOFError => true | Data _ => false end) reads.

(** Two reads that take the same time and deliver the same bytes up to the
    case of ASCII letters. *)
Definition same_case (e1 e2 : read_event) : Prop :=
  delay e1 = delay e2 /\
  match payload e1, payload e2 with
  | Data a, Data b => lower a = lower b
  | EOFError, EOFError => True
  | _, _ => False
  end.

Definition lower_outcome (o : outcome) : outcome :=
  match o with
  | Returned value => Returned (lower value)
  | Raised e => Raised e
  end.

(** Two runs that end the same way up to the case of the bytes they hold. *)
Definition same_run_modulo_case (r1 r2 : run) : Prop :=
  match r1, r2 with
  | Done o1 t1 u1, Done o2 t2 u2 =>
      lower_outcome o1 = lower_outcome o2 /\
      written (session t1) = written (session t2) /\
      session_lock t1 = session_lock t2 /\
      _isauthenticated t1 = _isauthenticated t2 /\
      Forall2 same_case u1 u2
  | BlockedOnRead out1 n1 t1, BlockedOnRead out2 n2 t2 =>
      lower out1 = lower out2 /\ n1 = n2 /\ t1 = t2
  | BlockedOnLock t1 u1, BlockedOnLock t2 u2 => t1 = t2 /\ Forall2 same_case u1 u2
  | _, _ => False
  end.

(** * Facts about byte strings *)

Lemma lower_app (s t : bytes) : lower (s ++ t) = lower s ++ lower t.
Proof. apply map_app. Qed.

Lemma lower_length (s : bytes) : List.length (lower s) = List.length s.
Proof. apply length_map. Qed.

Lemma lower_byte_idem (c : byte) : lower_byte (lower_byte c) = lower_byte c.
Proof. destruct c; reflexivity. Qed.

Lemma lower_idem (s : bytes) : lower (lower s) = lower s.
Proof.
  unfold lower. rewrite map_map. apply map_ext. exact lower_byte_idem.
Qed.

Lemma byte_eqb_eq (x y : byte) : Byte.eqb x y = true <-> x = y.
Proof. split; [apply Byte.byte_dec_bl | apply Byte.byte_dec_lb]. Qed.

Lemma startswith_spec (s prefix : bytes) :
  startswith s prefix = true <-> exists post, s = prefix ++ post.
Proof.
  revert s. induction prefix as [|p prefix IH]; intros s; simpl.
  - split; [intros _; now exists s | reflexivity].
  - destruct s as [|c s].
    + split; [discriminate | intros [post H]; discriminate].
    + rewrite andb_true_iff, byte_eqb_eq, IH.
      split.
      * intros [-> [post ->]]. now exists post.
      * intros [post H]. injection H as -> ->. split; [reflexivity | now exists post].
Qed.

Lemma bytes_in_spec (needle hay : bytes) :
  bytes_in needle hay = true <-> exists pre post, hay = pre ++ needle ++ post.
Proof.
  induction hay as [|c hay IH].
  - simpl. rewrite orb_false_r, startswith_spec. split.
    + intros [post H]. now exists [], post.
    + intros [pre [post H]]. destruct pre as [|x pre]; [|discriminate].
      now exists post.
  - cbn [bytes_in]. rewrite orb_true_iff, startswith_spec, IH. split.
    + intros [[post H] | [pre [post H]]].
      * now exists [], post.
      * exists (c :: pre), post. now rewrite H.
    + intros [pre [post H]]. destruct pre as [|x pre].
      * left. now exists post.
      * right. injection H as _ H. now exists pre, post.
Qed.

Lemma bytes_in_occurrences (needle hay : bytes) :
  bytes_in needle hay = (0 <? occurrences needle hay).
Proof.
  induction hay as [|c hay IH]; cbn [bytes_in occurrences].
  - destruct (startswith [] needle); reflexivity.
  - rewrite IH. destruct (startswith (c :: hay) needle); cbn [orb].
    + reflexivity.
    + reflexivity.
Qed.

(** * Facts about the state updates *)

Lemma session_write_lock (data : bytes) (t : Transport) :
  session_lock (session_write data t) = session_lock t.
Proof. reflexivity. Qed.

Lemma hello_seen_nil : hello_seen [] = false.
Proof. reflexivity. Qed.

Lemma prompt_seen_nil : prompt_seen [] = false.
Proof. reflexivity. Qed.

Lemma release_then_held (o : outcome) (t : Transport) :
  session_lock t = true -> release_then o t = (o, set_session_lock false t).
Proof. intros H. unfold release_then. now rewrite H. Qed.

(** * The loop over a script *)

Section Loop.

Variable handler : bytes -> option exn.

Lemma auth_loop_blocked_app pre rest output n t output' n' t' :
  auth_loop handler pre output n t = BlockedOnRead output' n' t' ->
  auth_loop handler (pre ++ rest) output n t = auth_loop handler rest output' n' t'.
Proof.
  revert output n t. induction pre as [|ev pre IH]; intros output n t; cbn [auth_loop app].
  - intros H. now injection H as -> -> ->.
  - destruct (loop_body handler (payload ev) output n t) as [o1 n1 t1 | o1 t1].
    + apply IH.
    + discriminate.
Qed.

Lemma auth_loop_done_app pre rest output n t o t' unread :
  auth_loop handler pre output n t = Done o t' unread ->
  auth_loop handler (pre ++ rest) output n t = Done o t' (unread ++ rest).
Proof.
  revert output n t. induction pre as [|ev pre IH]; intros output n t; cbn [auth_loop app].
  - discriminate.
  - destruct (loop_body handler (payload ev) output n t) as [o1 n1 t1 | o1 t1].
    + apply IH.
    + intros H. now injection H as -> -> ->.
Qed.

Lemma auth_loop_never_lock reads output n t t' unread :
  auth_loop handler reads output n t <> BlockedOnLock t' unread.
Proof.
  revert output n t. induction reads as [|ev reads IH]; intros output n t; cbn [auth_loop].
  - discriminate.
  - destruct (loop_body handler (payload ev) output n t); [apply IH | discriminate].
Qed.

(** A quiet stretch only grows the accumulator. *)
Lemma auth_loop_quiet reads output n t :
  n <= 1 -> quiet output reads = true ->
  auth_loop handler reads output n t = BlockedOnRead (output ++ received reads) n t.
Proof.
  intros Hn. revert output.
  induction reads as [|ev reads IH]; intros output; cbn [auth_loop quiet received].
  - now rewrite app_nil_r.
  - destruct (payload ev) as [new_output|]; [|discriminate].
    rewrite !andb_true_iff, !negb_true_iff. intros [[Hp Hh] Hq].
    unfold loop_body, answer_prompt. rewrite Hp, Hh.
    replace (1 <? n) with false by (symmetry; apply Nat.ltb_ge; exact Hn).
    rewrite (IH _ Hq). now rewrite app_assoc.
Qed.

(** The turn that answers the first prompt. *)
Lemma loop_body_first_prompt new_output output t :
  prompt_seen (output ++ new_output) = true ->
  loop_body handler (Data new_output) output 0 t =
  Continue [] 1
    (session_write (encode (_comms_return_char t))
       (session_write (encode (auth_password t)) t)).
Proof.
  intros Hp. unfold loop_body, answer_prompt. rewrite Hp. reflexivity.
Qed.

(** The turn that sees the prompt again. *)
Lemma loop_body_second_prompt new_output output t :
  session_lock t = true ->
  prompt_seen (output ++ new_output) = true ->
  loop_body handler (Data new_output) output 1 t =
  Exit (Raised (ScrapliAuthenticationFailed password_repeat_message))
    (set_session_lock false
       (session_write (encode (_comms_return_char t))
          (session_write (encode (auth_password t)) t))).
Proof.
  intros Hl Hp. unfold loop_body, answer_prompt. rewrite Hp.
  cbn [Nat.add Nat.ltb Nat.leb]. rewrite release_then_held; [reflexivity | exact Hl].
Qed.

(** The turn that finds the greeting. *)
Lemma loop_body_hello new_output output n t :
  n <= 1 -> session_lock t = true ->
  prompt_seen (output ++ new_output) = false ->
  hello_seen (output ++ new_output) = true ->
  loop_body handler (Data new_output) output n t =
  Exit (Returned (output ++ new_output))
    (set_session_lock false (set_isauthenticated true t)).
Proof.
  intros Hn Hl Hp Hh. unfold loop_body, answer_prompt. rewrite Hp, Hh.
  replace (1 <? n) with false by (symmetry; apply Nat.ltb_ge; exact Hn).
  rewrite release_then_held; [reflexivity | exact Hl].
Qed.

End Loop.

(** * The deadline *)

Lemma total_delay_app (pre rest : list read_event) :
  total_delay (pre ++ rest) = total_delay pre + total_delay rest.
Proof.
  unfold total_delay. induction pre as [|ev pre IH]; cbn [app fold_right].
  - reflexivity.
  - rewrite IH. lia.
Qed.

Lemma arrived_by_split (budget : nat) (reads : list read_event) :
  fst (arrived_by budget reads) ++ snd (arrived_by budget reads) = reads.
Proof.
  revert budget. induction reads as [|ev reads IH]; intros budget; cbn [arrived_by].
  - reflexivity.
  - destruct (delay ev <=? budget).
    + specialize (IH (budget - delay ev)).
      destruct (arrived_by (budget - delay ev) reads) as [now later].
      cbn [fst snd app] in *. now rewrite IH.
    + reflexivity.
Qed.

Lemma arrived_by_within (budget : nat) (reads : list read_event) :
  total_delay (fst (arrived_by budget reads)) <= budget.
Proof.
  revert budget. induction reads as [|ev reads IH]; intros budget; cbn [arrived_by].
  - cbn. lia.
  - destruct (delay ev <=? budget) eqn:E.
    + apply Nat.leb_le in E. specialize (IH (budget - delay ev)).
      destruct (arrived_by (budget - delay ev) reads) as [now later].
      cbn [fst] in *. unfold total_delay in *. cbn [fold_right]. lia.
    + cbn. lia.
Qed.

Lemma arrived_by_app (budget : nat) (pre rest : list read_event) :
  total_delay pre <= budget ->
  arrived_by budget (pre ++ rest) =
  (pre ++ fst (arrived_by (budget - total_delay pre) rest),
   snd (arrived_by (budget - total_delay pre) rest)).
Proof.
  revert budget. induction pre as [|ev pre IH]; intros budget H.
  - cbn [app total_delay fold_right]. rewrite Nat.sub_0_r.
    now destruct (arrived_by budget rest).
  - unfold total_delay in H. cbn [fold_right] in H. fold (total_delay pre) in H.
    cbn [app arrived_by].
    replace (delay ev <=? budget) with true by (symmetry; apply Nat.leb_le; lia).
    rewrite IH by lia.
    unfold total_delay. cbn [fold_right]. fold (total_delay pre).
    now rewrite Nat.sub_add_distr.
Qed.

Lemma arrived_by_late (budget : nat) (reads : list read_event) :
  next_read_late budget reads = true -> arrived_by budget reads = ([], reads).
Proof.
  destruct reads as [|ev reads]; cbn [next_read_late arrived_by].
  - reflexivity.
  - intros H. apply Nat.ltb_lt in H.
    replace (delay ev <=? budget) with false by (symmetry; apply Nat.leb_gt; lia).
    reflexivity.
Qed.

Section Deadline.

Variable handler : bytes -> option exn.

Lemma authenticate_body_done_app pre rest t o t' unread :
  authenticate_body handler pre t = Done o t' unread ->
  authenticate_body handler (pre ++ rest) t = Done o t' (unread ++ rest).
Proof.
  unfold authenticate_body. destruct (session_lock t); [discriminate|].
  apply auth_loop_done_app.
Qed.

(** A dialogue that ends within the deadline ends the same way decorated. *)
Lemma authenticate_in_time pre rest t o t' :
  total_delay pre <= _timeout_ops t ->
  authenticate_body handler pre t = Done o t' [] ->
  _authenticate handler (pre ++ rest) t = Done o t' rest.
Proof.
  intros Ht Hb. unfold _authenticate, operation_timeout.
  rewrite (arrived_by_app _ _ _ Ht).
  rewrite (authenticate_body_done_app _ _ _ _ _ _ Hb). cbn [app].
  now rewrite arrived_by_split.
Qed.

(** A dialogue still reading when the deadline passes is cancelled. *)
Lemma authenticate_expires pre rest t output n t1 :
  total_delay pre <= _timeout_ops t ->
  next_read_late (_timeout_ops t - total_delay pre) rest = true ->
  authenticate_body handler pre t = BlockedOnRead output n t1 ->
  _authenticate handler (pre ++ rest) t =
  Done (Raised (OperationTimeout timeout_message)) (set_session_lock false t1) rest.
Proof.
  intros Ht Hl Hb. unfold _authenticate, operation_timeout.
  rewrite (arrived_by_app _ _ _ Ht), (arrived_by_late _ _ Hl). cbn [fst snd].
  rewrite app_nil_r, Hb. reflexivity.
Qed.

End Deadline.

(** * Dialogues with password prompts *)

Section Dialogues.

Variable handler : bytes -> option exn.

(** One prompt answered, and the loop reads on with an empty accumulator. *)
Lemma auth_loop_one_prompt q1 d1 c1 t :
  quiet [] q1 = true -> prompt_seen (received q1 ++ c1) = true ->
  auth_loop handler (q1 ++ [mkRead d1 (Data c1)]) [] 0 t =
  BlockedOnRead [] 1
    (session_write (encode (_comms_return_char t))
       (session_write (encode (auth_password t)) t)).
Proof.
  intros Hq Hp.
  rewrite (auth_loop_blocked_app handler q1 _ [] 0 t _ _ _
             (auth_loop_quiet handler q1 [] 0 t (Nat.le_0_l 1) Hq)).
  cbn [auth_loop payload app].
  now rewrite (loop_body_first_prompt handler c1 _ t Hp).
Qed.

Lemma body_two_prompts q1 d1 c1 q2 d2 c2 t :
  session_lock t = false ->
  quiet [] q1 = true -> prompt_seen (received q1 ++ c1) = true ->
  quiet [] q2 = true -> prompt_seen (received q2 ++ c2) = true ->
  authenticate_body handler
    ((q1 ++ [mkRead d1 (Data c1)]) ++ q2 ++ [mkRead d2 (Data c2)]) t =
  Done (Raised (ScrapliAuthenticationFailed password_repeat_message))
    (set_session_lock false
       (session_write (encode (_comms_return_char t))
          (session_write (encode (auth_password t))
             (session_write (encode (_comms_return_char t))
                (session_write (encode (auth_password t))
                   (set_session_lock true t))))))
    [].
Proof.
  intros Hl Hq1 Hp1 Hq2 Hp2. unfold authenticate_body. rewrite Hl.
  rewrite (auth_loop_blocked_app handler _ _ _ _ _ _ _ _
             (auth_loop_one_prompt q1 d1 c1 _ Hq1 Hp1)).
  rewrite (auth_loop_blocked_app handler q2 _ _ _ _ _ _ _
             (auth_loop_quiet handler q2 [] 1 _ (Nat.le_refl 1) Hq2)).
  cbn [auth_loop payload app].
  rewrite loop_body_second_prompt; [reflexivity | reflexivity | exact Hp2].
Qed.

Lemma body_prompt_then_hello q1 d1 c1 q2 d2 c2 t :
  session_lock t = false ->
  quiet [] q1 = true -> prompt_seen (received q1 ++ c1) = true ->
  quiet [] q2 = true ->
  prompt_seen (received q2 ++ c2) = false -> hello_seen (received q2 ++ c2) = true ->
  authenticate_body handler
    ((q1 ++ [mkRead d1 (Data c1)]) ++ q2 ++ [mkRead d2 (Data c2)]) t =
  Done (Returned (received q2 ++ c2))
    (set_session_lock false
       (set_isauthenticated true
          (session_write (encode (_comms_return_char t))
             (session_write (encode (auth_password t))
                (set_session_lock true t)))))
    [].
Proof.
  intros Hl Hq1 Hp1 Hq2 Hp2 Hh2. unfold authenticate_body. rewrite Hl.
  rewrite (auth_loop_blocked_app handler _ _ _ _ _ _ _ _
             (auth_loop_one_prompt q1 d1 c1 _ Hq1 Hp1)).
  rewrite (auth_loop_blocked_app handler q2 _ _ _ _ _ _ _
             (auth_loop_quiet handler q2 [] 1 _ (Nat.le_refl 1) Hq2)).
  cbn [auth_loop payload app].
  rewrite loop_body_hello; [reflexivity | apply Nat.le_refl | reflexivity | exact Hp2 | exact Hh2].
Qed.

End Dialogues.

Lemma reads_regroup (q1 q2 tl : list read_event) (e1 e2 : read_event) :
  q1 ++ e1 :: q2 ++ e2 :: tl = ((q1 ++ [e1]) ++ q2 ++ [e2]) ++ tl.
Proof. now rewrite <- !app_assoc. Qed.

(** C1, the claim as written fails: two occurrences of the prompt that
    arrive within a single read are answered once, and the greeting that
    follows is returned as a success. *)
Lemma two_prompts_in_one_read_succeed :
  exists t',
    _authenticate sample_handler
      [chunk 1 "password: password: "; chunk 1 "<hello"] sample_transport
    = Done (Returned (lit "<hello")) t' [] /\
    occurrences password_prompt (lower (lit "password: password: ")) = 2 /\
    _isauthenticated t' = true.
Proof. eexists. repeat split. Qed.

(** C1, amended: when the prompt is detected after two separate reads
    (each time in the bytes accumulated since the start or since the
    previous answer), with no greeting detected before, the routine raises
    [ScrapliAuthenticationFailed] with the seen-multiple-times message,
    whatever follows: so does the undecorated body, and so does
    [_authenticate] when these reads arrive within the operation timeout.
    It has answered both prompts, released the lock and left the
    authentication flag alone.  Occurrences of the prompt that arrive
    within one read count once. *)
Theorem password_prompt_on_two_reads_fails
    (handler : bytes -> option exn)
    (q1 q2 rest : list read_event) (d1 d2 : nat) (c1 c2 : bytes) (t : Transport) :
  session_lock t = false ->
  quiet [] q1 = true -> prompt_seen (received q1 ++ c1) = true ->
  quiet [] q2 = true -> prompt_seen (received q2 ++ c2) = true ->
  let reads := q1 ++ mkRead d1 (Data c1) :: q2 ++ mkRead d2 (Data c2) :: rest in
  let failure := Raised (ScrapliAuthenticationFailed password_repeat_message) in
  exists t',
    authenticate_body handler reads t = Done failure t' rest /\
    (total_delay (q1 ++ mkRead d1 (Data c1) :: q2 ++ [mkRead d2 (Data c2)])
       <= _timeout_ops t ->
     _authenticate handler reads t = Done failure t' rest) /\
    session_lock t' = false /\
    _isauthenticated t' = _isauthenticated t /\
    written (session t') =
      written (session t) ++ credential_writes t ++ credential_writes t.
Proof.
  intros Hl Hq1 Hp1 Hq2 Hp2 reads failure. subst reads failure.
  pose proof (body_two_prompts handler q1 d1 c1 q2 d2 c2 t Hl Hq1 Hp1 Hq2 Hp2) as Hb.
  pose proof (fun tl => reads_regroup q1 q2 tl (mkRead d1 (Data c1)) (mkRead d2 (Data c2)))
    as E.
  eexists. split; [|split].
  - rewrite E. exact (authenticate_body_done_app handler _ rest _ _ _ _ Hb).
  - intros Ht. rewrite E. apply authenticate_in_time; [|exact Hb].
    specialize (E []). rewrite app_nil_r in E. rewrite <- E. exact Ht.
  - cbn. rewrite <- !app_assoc. repeat split.
Qed.

Lemma password_prompt_on_two_reads_fails_witness :
  exists t',
    authenticate_body sample_handler
      [chunk 1 "login ok"; chunk 1 "Password: "; chunk 2 "Permission denied";
       chunk 1 "password: "; chunk 1 "<hello"] sample_transport
    = Done (Raised (ScrapliAuthenticationFailed password_repeat_message)) t'
        [chunk 1 "<hello"] /\
    (5 <= 30 ->
     _authenticate sample_handler
       [chunk 1 "login ok"; chunk 1 "Password: "; chunk 2 "Permission denied";
        chunk 1 "password: "; chunk 1 "<hello"] sample_transport
     = Done (Raised (ScrapliAuthenticationFailed password_repeat_message)) t'
         [chunk 1 "<hello"]) /\
    session_lock t' = false /\
    _isauthenticated t' = false /\
    written (session t') =
      [lit "secret"; encode LF; lit "secret"; encode LF].
Proof.
  apply (password_prompt_on_two_reads_fails sample_handler
           [chunk 1 "login ok"] [chunk 2 "Permission denied"] [chunk 1 "<hello"]
           1 1 (lit "Password: ") (lit "password: ") sample_transport);
    reflexivity.
Defined.

(** C3, the claim as written fails: with exactly one prompt followed by
    the greeting in the same read, the credential is written once but the
    greeting is thrown away with the rest of the accumulator; the routine
    keeps reading and, the peer staying silent, ends in the timeout. *)
Lemma greeting_in_prompt_read_not_returned :
  occurrences password_prompt (lower (lit "password: <hello xmlns")) = 1 /\
  hello_seen (lit "password: <hello xmlns") = true /\
  (exists t1,
     authenticate_body sample_handler [chunk 1 "password: <hello xmlns"] sample_transport
     = BlockedOnRead [] 1 t1 /\
     written (session t1) = credential_writes sample_transport /\
     _isauthenticated t1 = false) /\
  (exists t',
     _authenticate sample_handler [chunk 1 "password: <hello xmlns"] sample_transport
     = Done (Raised (OperationTimeout timeout_message)) t' []).
Proof.
  split; [reflexivity|]. split; [reflexivity|].
  split; eexists; repeat split.
Qed.

(** C3, amended: when the prompt is detected after exactly one read and
    the reads after that one come to contain the greeting marker (first
    after some read, with no prompt in them), the routine writes the
    credential and the return character exactly once, sets the
    authentication flag, releases the lock and returns, unmodified and in
    receipt order, all bytes of the reads after the prompt read up to and
    including the read that completes the marker: so does the undecorated
    body, and so does [_authenticate] when these reads arrive within the
    operation timeout.  Bytes that arrived in the same read as the prompt
    are not part of the result. *)
Theorem one_prompt_then_greeting_returns
    (handler : bytes -> option exn)
    (q1 q2 rest : list read_event) (d1 d2 : nat) (c1 c2 : bytes) (t : Transport) :
  session_lock t = false ->
  quiet [] q1 = true -> prompt_seen (received q1 ++ c1) = true ->
  quiet [] q2 = true ->
  prompt_seen (received q2 ++ c2) = false -> hello_seen (received q2 ++ c2) = true ->
  let reads := q1 ++ mkRead d1 (Data c1) :: q2 ++ mkRead d2 (Data c2) :: rest in
  exists t',
    authenticate_body handler reads t = Done (Returned (received q2 ++ c2)) t' rest /\
    (total_delay (q1 ++ mkRead d1 (Data c1) :: q2 ++ [mkRead d2 (Data c2)])
       <= _timeout_ops t ->
     _authenticate handler reads t = Done (Returned (received q2 ++ c2)) t' rest) /\
    written (session t') = written (session t) ++ credential_writes t /\
    _isauthenticated t' = true /\
    session_lock t' = false.
Proof.
  intros Hl Hq1 Hp1 Hq2 Hp2 Hh2 reads. subst reads.
  pose proof (body_prompt_then_hello handler q1 d1 c1 q2 d2 c2 t
                Hl Hq1 Hp1 Hq2 Hp2 Hh2) as Hb.
  pose proof (fun tl => reads_regroup q1 q2 tl (mkRead d1 (Data c1)) (mkRead d2 (Data c2)))
    as E.
  eexists. split; [|split].
  - rewrite E. exact (authenticate_body_done_app handler _ rest _ _ _ _ Hb).
  - intros Ht. rewrite E. apply authenticate_in_time; [|exact Hb].
    specialize (E []). rewrite app_nil_r in E. rewrite <- E. exact Ht.
  - cbn. rewrite <- !app_assoc. repeat split.
Qed.

Lemma one_prompt_then_greeting_returns_witness :
  exists t',
    authenticate_body sample_handler
      [chunk 1 "login ok"; chunk 1 "Password: "; chunk 2 "<?xml version="; chunk 1 "1.0?><hel";
       chunk 1 "lo xmlns="; chunk 1 "urn:ietf"] sample_transport
    = Done (Returned (lit "<?xml version=1.0?><hello xmlns=")) t' [chunk 1 "urn:ietf"] /\
    (6 <= 30 ->
     _authenticate sample_handler
       [chunk 1 "login ok"; chunk 1 "Password: "; chunk 2 "<?xml version="; chunk 1 "1.0?><hel";
        chunk 1 "lo xmlns="; chunk 1 "urn:ietf"] sample_transport
     = Done (Returned (lit "<?xml version=1.0?><hello xmlns=")) t' [chunk 1 "urn:ietf"]) /\
    written (session t') = [lit "secret"; encode LF] /\
    _isauthenticated t' = true /\
    session_lock t' = false.
Proof.
  apply (one_prompt_then_greeting_returns sample_handler
           [chunk 1 "login ok"] [chunk 2 "<?xml version="; chunk 1 "1.0?><hel"]
           [chunk 1 "urn:ietf"]
           1 1 (lit "Password: ") (lit "lo xmlns=") sample_transport);
    reflexivity.
Defined.

(** * End of stream *)

Section EndOfStream.

Variable handler : bytes -> option exn.

(** While the loop goes on it touches nothing but the write log. *)
Lemma loop_body_continue_frame r output n t output' n' t' :
  loop_body handler r output n t = Continue output' n' t' ->
  session_lock t' = session_lock t /\ handler_calls t' = handler_calls t /\
  host t' = host t /\ _isauthenticated t' = _isauthenticated t.
Proof.
  destruct r as [new_output|]; cbn [loop_body]; [|discriminate].
  unfold answer_prompt.
  destruct (prompt_seen (output ++ new_output));
    (destruct (1 <? _); [discriminate|]);
    (destruct (hello_seen _); [discriminate|]);
    intros H; injection H as _ _ <-; repeat split.
Qed.

Lemma auth_loop_blocked_frame reads output n t output' n' t' :
  auth_loop handler reads output n t = BlockedOnRead output' n' t' ->
  session_lock t' = session_lock t /\ handler_calls t' = handler_calls t /\
  host t' = host t /\ _isauthenticated t' = _isauthenticated t.
Proof.
  revert output n t. induction reads as [|ev reads IH]; intros output n t; cbn [auth_loop].
  - intros H. injection H as _ _ <-. repeat split.
  - destruct (loop_body handler (payload ev) output n t) as [o1 n1 t1 | o1 t1] eqn:E;
      [|discriminate].
    intros H. apply IH in H. apply loop_body_continue_frame in E.
    destruct H as (-> & -> & -> & ->). exact E.
Qed.

Lemma authenticate_body_blocked pre t output n t1 :
  authenticate_body handler pre t = BlockedOnRead output n t1 ->
  session_lock t = false /\
  auth_loop handler pre [] 0 (set_session_lock true t) = BlockedOnRead output n t1 /\
  session_lock t1 = true /\ handler_calls t1 = handler_calls t /\
  host t1 = host t /\ _isauthenticated t1 = _isauthenticated t.
Proof.
  unfold authenticate_body. destruct (session_lock t); [discriminate|].
  intros H. split; [reflexivity|]. split; [exact H|].
  apply auth_loop_blocked_frame in H. exact H.
Qed.

End EndOfStream.

(** C4: when the routine is still reading (no greeting has ended it) and
    the next read signals end of stream, the classifier is invoked, once,
    on the accumulated output before anything else; an exception of the
    classifier is what the routine raises, and if the classifier returns,
    the routine releases the lock and raises [ScrapliAuthenticationFailed]
    with the strict-host-key hint.  In no case does it return a value or
    set the authentication flag.  This is what the undecorated body does,
    and what [_authenticate] does when the end of stream arrives within the
    operation timeout. *)
Theorem eof_before_greeting_fails
    (handler : bytes -> option exn)
    (pre rest : list read_event) (d : nat) (t t1 : Transport)
    (output : bytes) (n : nat) :
  authenticate_body handler pre t = BlockedOnRead output n t1 ->
  let reads := pre ++ mkRead d EOFError :: rest in
  exists e t',
    authenticate_body handler reads t = Done (Raised e) t' rest /\
    (total_delay (pre ++ [mkRead d EOFError]) <= _timeout_ops t ->
     _authenticate handler reads t = Done (Raised e) t' rest) /\
    handler_calls t' = handler_calls t ++ [output] /\
    _isauthenticated t' = _isauthenticated t /\
    match handler output with
    | Some diagnostic => e = diagnostic
    | None =>
        e = ScrapliAuthenticationFailed
              ("Failed to open connection to host " ++ host t ++
               ". Do you need to disable `auth_strict_key`?") /\
        session_lock t' = false
    end.
Proof.
  intros Hb reads. subst reads.
  destruct (authenticate_body_blocked handler pre t output n t1 Hb)
    as (Hl & Hloop & Hl1 & Hc1 & Hh1 & Ha1).
  assert (Hbody : authenticate_body handler (pre ++ [mkRead d EOFError]) t
                  = Done (fst (on_eof handler output t1)) (snd (on_eof handler output t1)) []).
  { unfold authenticate_body. rewrite Hl.
    rewrite (auth_loop_blocked_app handler pre _ _ _ _ _ _ _ Hloop). reflexivity. }
  replace (pre ++ mkRead d EOFError :: rest)
    with ((pre ++ [mkRead d EOFError]) ++ rest) by now rewrite <- app_assoc.
  rewrite (authenticate_body_done_app handler _ rest t _ _ _ Hbody). cbn [app].
  assert (Hdec : total_delay (pre ++ [mkRead d EOFError]) <= _timeout_ops t ->
                 _authenticate handler ((pre ++ [mkRead d EOFError]) ++ rest) t
                 = Done (fst (on_eof handler output t1)) (snd (on_eof handler output t1)) rest).
  { intros Ht. exact (authenticate_in_time handler _ rest t _ _ Ht Hbody). }
  revert Hdec. unfold on_eof. destruct (handler output) as [diagnostic|].
  - intros Hdec. exists diagnostic. eexists. split; [reflexivity|].
    split; [exact Hdec|]. cbn. rewrite Hc1, Ha1. repeat split.
  - rewrite release_then_held by exact Hl1. intros Hdec.
    eexists. eexists. split; [reflexivity|]. split; [exact Hdec|]. cbn.
    rewrite Hc1, Ha1. unfold strict_key_message. cbn. rewrite Hh1. repeat split.
Qed.

Lemma eof_before_greeting_fails_witness :
  exists e t',
    authenticate_body sample_handler
      [chunk 1 "login ok"; chunk 1 "password: "; chunk 1 "Connection closed"; eof 1;
       chunk 1 "<hello"] sample_transport
    = Done (Raised e) t' [chunk 1 "<hello"] /\
    (4 <= 30 ->
     _authenticate sample_handler
       [chunk 1 "login ok"; chunk 1 "password: "; chunk 1 "Connection closed"; eof 1;
        chunk 1 "<hello"] sample_transport
     = Done (Raised e) t' [chunk 1 "<hello"]) /\
    handler_calls t' = [lit "Connection closed"] /\
    _isauthenticated t' = false /\
    e = ScrapliAuthenticationFailed
          "Failed to open connection to host r1. Do you need to disable `auth_strict_key`?" /\
    session_lock t' = false.
Proof.
  apply (eof_before_greeting_fails sample_handler
           [chunk 1 "login ok"; chunk 1 "password: "; chunk 1 "Connection closed"]
           [chunk 1 "<hello"] 1 sample_transport
           (session_write (encode LF)
              (session_write (encode "secret") (set_session_lock true sample_transport)))
           (lit "Connection closed") 1).
  reflexivity.
Defined.

(** * The session lock *)

Section Lock.

Variable handler : bytes -> option exn.

Lemma loop_body_exit_lock r output n t o t' :
  session_lock t = true ->
  loop_body handler r output n t = Exit o t' ->
  session_lock t' = false \/
  exists out e, handler out = Some e /\ o = Raised e /\ session_lock t' = true.
Proof.
  intros Hl. destruct r as [new_output|]; cbn [loop_body].
  - unfold answer_prompt.
    destruct (prompt_seen (output ++ new_output));
      (destruct (1 <? _);
       [|destruct (hello_seen _); [|discriminate]]);
      rewrite release_then_held by exact Hl;
      intros H; injection H as _ <-; now left.
  - unfold on_eof. destruct (handler output) as [e|] eqn:E.
    + intros H. injection H as <- <-. right. exists output, e. repeat split; assumption.
    + rewrite release_then_held by exact Hl.
      intros H. injection H as _ <-. now left.
Qed.

Lemma auth_loop_done_lock reads output n t o t' unread :
  session_lock t = true ->
  auth_loop handler reads output n t = Done o t' unread ->
  session_lock t' = false \/
  exists out e, handler out = Some e /\ o = Raised e /\ session_lock t' = true.
Proof.
  revert output n t. induction reads as [|ev reads IH]; intros output n t Hl; cbn [auth_loop].
  - discriminate.
  - destruct (loop_body handler (payload ev) output n t) as [o1 n1 t1 | o1 t1] eqn:E.
    + apply IH. apply loop_body_continue_frame in E. destruct E as (-> & _). exact Hl.
    + intros H. injection H as <- <- _. exact (loop_body_exit_lock _ _ _ _ _ _ Hl E).
Qed.

(** Every call of [_authenticate] ends, and it ends with the lock free on
    every path but one: the classifier raising at end of stream. *)
Lemma authenticate_lock_paths reads t :
  session_lock t = false ->
  exists o t' unread,
    _authenticate handler reads t = Done o t' unread /\
    (session_lock t' = false \/
     exists out e, handler out = Some e /\ o = Raised e /\ session_lock t' = true).
Proof.
  intros Hl. unfold _authenticate, operation_timeout.
  destruct (arrived_by (_timeout_ops t) reads) as [now later].
  unfold authenticate_body. rewrite Hl.
  destruct (auth_loop handler now [] 0 (set_session_lock true t))
    as [o t' unread | output n t' | t' unread] eqn:E.
  - exists o, t', (unread ++ later). split; [reflexivity|].
    apply (auth_loop_done_lock now [] 0 (set_session_lock true t) o t' unread);
      [reflexivity | exact E].
  - eexists _, _, _. split; [reflexivity|]. now left.
  - eexists _, _, _. split; [reflexivity|]. now left.
Qed.

End Lock.

(** C2, at the failing input: the peer reports a host-key failure and
    closes; the classifier raises its diagnostic and [_authenticate] lets it
    through with the session lock still held, so the next acquisition of the
    lock blocks. *)
Theorem classifier_exception_leaves_lock_held :
  exists t',
    _authenticate sample_handler
      [chunk 1 "Host key verification failed."; eof 1] sample_transport
    = Done (Raised (ScrapliAuthenticationFailed
                      "Host key verification failed for host r1")) t' [] /\
    session_lock t' = true /\
    authenticate_body sample_handler [] t' = BlockedOnLock t' [].
Proof. eexists. repeat split. Qed.

(** * The operation timeout *)

(** C5, the claim as written fails on the text of the message: a peer
    that never prompts nor greets makes the routine time out, and the error
    carries the message of the source, which starts with a capital. *)
Lemma timeout_message_differs :
  (exists output n t1,
     authenticate_body sample_handler
       (fst (arrived_by (_timeout_ops sample_transport) [chunk 1 "login ok"]))
       sample_transport
     = BlockedOnRead output n t1) /\
  exists o t',
    _authenticate sample_handler [chunk 1 "login ok"] sample_transport = Done o t' [] /\
    o <> Raised (OperationTimeout "timed out looking for SSH login password prompt").
Proof.
  split.
  - eexists _, _, _. reflexivity.
  - eexists _, _. split; [reflexivity | discriminate].
Qed.

(** C5, amended: one deadline covers the whole read loop.  Only the
    total time of the reads counts: a dialogue that reaches its end within
    [_timeout_ops] ends as it would undecorated, however the time is spread
    over its reads; a dialogue that is still reading when no further read
    completes within what is left of [_timeout_ops] fails with
    [OperationTimeout], which is not [ScrapliAuthenticationFailed], carrying
    the message "Timed out looking for SSH login password prompt". *)
Theorem timeout_covers_whole_loop
    (handler : bytes -> option exn) (pre rest : list read_event) (t : Transport) :
  total_delay pre <= _timeout_ops t ->
  (forall o t',
     authenticate_body handler pre t = Done o t' [] ->
     _authenticate handler (pre ++ rest) t = Done o t' rest) /\
  (forall output n t1,
     authenticate_body handler pre t = BlockedOnRead output n t1 ->
     next_read_late (_timeout_ops t - total_delay pre) rest = true ->
     _authenticate handler (pre ++ rest) t
     = Done (Raised (OperationTimeout "Timed out looking for SSH login password prompt"))
         (set_session_lock false t1) rest /\
     forall msg,
       OperationTimeout "Timed out looking for SSH login password prompt"
       <> ScrapliAuthenticationFailed msg).
Proof.
  intros Ht. split.
  - intros o t' Hb. exact (authenticate_in_time handler pre rest t o t' Ht Hb).
  - intros output n t1 Hb Hlate. split.
    + exact (authenticate_expires handler pre rest t output n t1 Ht Hlate Hb).
    + discriminate.
Qed.

(** Two reads of 20 ticks each against a deadline of 30: each read alone
    would be in time, the loop as a whole is not. *)
Lemma timeout_covers_whole_loop_witness :
  _authenticate sample_handler [chunk 20 "login ok"; chunk 20 "<hello"] sample_transport
  = Done (Raised (OperationTimeout "Timed out looking for SSH login password prompt"))
      (set_session_lock false (set_session_lock true sample_transport))
      [chunk 20 "<hello"].
Proof.
  assert (H : total_delay [chunk 20 "login ok"] <= _timeout_ops sample_transport)
    by (cbn; lia).
  exact (proj1 (proj2 (timeout_covers_whole_loop sample_handler
                         [chunk 20 "login ok"] [chunk 20 "<hello"] sample_transport H)
                  (lit "login ok") 0 (set_session_lock true sample_transport)
                  eq_refl eq_refl)).
Defined.

(** * One turn of the loop *)

(** C6: on a turn where the accumulator, with the new bytes appended,
    shows the prompt, the counter goes up by one, the accumulator becomes
    empty and the credential, then the return character, are written to the
    session.  The greeting scan of that turn therefore looks at nothing:
    the turn either fails on the repeated prompt or goes on reading with an
    empty accumulator, and it never returns, even if the greeting arrived in
    the same read. *)
Theorem prompt_turn_resets_accumulator
    (handler : bytes -> option exn)
    (new_output output : bytes) (n : nat) (t : Transport) :
  prompt_seen (output ++ new_output) = true ->
  let answered :=
    session_write (encode (_comms_return_char t))
      (session_write (encode (auth_password t)) t) in
  answer_prompt (output ++ new_output) n t = ([], n + 1, answered) /\
  written (session answered) =
    written (session t) ++ [encode (auth_password t); encode (_comms_return_char t)] /\
  loop_body handler (Data new_output) output n t =
    (if 1 <? n + 1
     then exit_with
            (release_then
               (Raised (ScrapliAuthenticationFailed password_repeat_message)) answered)
     else Continue [] (n + 1) answered) /\
  forall value t', loop_body handler (Data new_output) output n t <> Exit (Returned value) t'.
Proof.
  intros Hp answered.
  assert (Ha : answer_prompt (output ++ new_output) n t = ([], n + 1, answered)).
  { unfold answer_prompt. now rewrite Hp. }
  assert (Hb : loop_body handler (Data new_output) output n t =
               (if 1 <? n + 1
                then exit_with
                       (release_then
                          (Raised (ScrapliAuthenticationFailed password_repeat_message))
                          answered)
                else Continue [] (n + 1) answered)).
  { cbn [loop_body]. rewrite Ha. now rewrite hello_seen_nil. }
  split; [exact Ha|]. split.
  - unfold answered. cbn. now rewrite <- app_assoc.
  - split; [exact Hb|]. intros value t'. rewrite Hb.
    destruct (1 <? n + 1); [|discriminate].
    unfold release_then. destruct (session_lock answered); discriminate.
Qed.

Lemma prompt_turn_resets_accumulator_witness :
  hello_seen (lit "Password: <hello xmlns") = true /\
  loop_body sample_handler (Data (lit "Password: <hello xmlns")) [] 0
    (set_session_lock true sample_transport)
  = Continue [] 1
      (session_write (encode LF)
         (session_write (encode "secret") (set_session_lock true sample_transport))).
Proof.
  split; [reflexivity|].
  exact (proj1 (proj2 (proj2
           (prompt_turn_resets_accumulator sample_handler
              (lit "Password: <hello xmlns") [] 0
              (set_session_lock true sample_transport) eq_refl)))).
Defined.

(** C8: in one turn the counter grows by one and the credential is written
    once exactly when the prompt occurs at least once in the accumulator,
    and not at all otherwise; how many times it occurs plays no part. *)
Theorem one_answer_per_turn
    (handler : bytes -> option exn)
    (new_output output : bytes) (n : nat) (t : Transport) :
  let k := occurrences password_prompt (lower (output ++ new_output)) in
  let x := loop_body handler (Data new_output) output n t in
  snd (fst (answer_prompt (output ++ new_output) n t)) = n + (if 0 <? k then 1 else 0) /\
  written (session (turn_transport x)) =
    written (session t) ++ (if 0 <? k then credential_writes t else []) /\
  forall output' n' t', x = Continue output' n' t' -> n' = n + (if 0 <? k then 1 else 0).
Proof.
  intros k x. subst k x. rewrite <- bytes_in_occurrences.
  fold (prompt_seen (output ++ new_output)).
  cbn [loop_body]. unfold answer_prompt.
  destruct (prompt_seen (output ++ new_output)).
  - split; [reflexivity|].
    destruct (1 <? n + 1).
    + unfold release_then. cbn [session_lock session_write set_session].
      destruct (session_lock t); cbn; rewrite <- app_assoc; split;
        try reflexivity; discriminate.
    + rewrite hello_seen_nil. cbn. rewrite <- app_assoc. split; [reflexivity|].
      intros ? ? ? H. now injection H as _ <- _.
  - split; [cbn; lia|].
    destruct (1 <? n).
    + unfold release_then. destruct (session_lock t); cbn; rewrite app_nil_r; split;
        try reflexivity; discriminate.
    + destruct (hello_seen (output ++ new_output)).
      * unfold release_then. cbn [session_lock set_isauthenticated].
        destruct (session_lock t); cbn; rewrite app_nil_r; split;
          try reflexivity; discriminate.
      * cbn. rewrite app_nil_r. split; [reflexivity|].
        intros ? ? ? H. injection H as _ <- _. lia.
Qed.

(** Three prompts in one accumulator: one increment, one answer. *)
Lemma one_answer_per_turn_witness :
  occurrences password_prompt (lower (lit "password: Password: PASSWORD: ")) = 3 /\
  1 = 0 + (if 0 <? occurrences password_prompt
                     (lower (lit "password: " ++ lit "Password: PASSWORD: "))
           then 1 else 0).
Proof.
  split; [reflexivity|].
  exact (proj2 (proj2
           (one_answer_per_turn sample_handler (lit "Password: PASSWORD: ")
              (lit "password: ") 0 (set_session_lock true sample_transport)))
           [] 1
           (session_write (encode LF)
              (session_write (encode "secret") (set_session_lock true sample_transport)))
           eq_refl).
Defined.

(** * Matching *)

Lemma lower_eq_app (s u v : bytes) :
  lower s = u ++ v -> exists s1 s2, s = s1 ++ s2 /\ lower s1 = u /\ lower s2 = v.
Proof. unfold lower. apply map_eq_app. Qed.

(** [needle in output.lower()] for a lowercase-insensitive reading of
    [output]: some run of [output] lowers to [needle]. *)
Lemma bytes_in_lower_spec (needle output : bytes) :
  bytes_in needle (lower output) = true <->
  exists pre p post, output = pre ++ p ++ post /\ lower p = needle.
Proof.
  rewrite bytes_in_spec. split.
  - intros (pre' & post' & H).
    apply lower_eq_app in H. destruct H as (pre & mid & -> & _ & H).
    apply lower_eq_app in H. destruct H as (p & post & -> & Hp & _).
    now exists pre, p, post.
  - intros (pre & p & post & -> & <-).
    exists (lower pre), (lower post). now rewrite !lower_app.
Qed.

Section Scans.

Variable handler : bytes -> option exn.

(** A turn whose accumulated bytes hold a run that lowers to the prompt. *)
Lemma loop_body_prompt_run new_output output n t :
  (exists pre p post, output ++ new_output = pre ++ p ++ post /\ lower p = lit "password:") ->
  loop_body handler (Data new_output) output n t =
  if 1 <? n + 1
  then exit_with
         (release_then
            (Raised (ScrapliAuthenticationFailed password_repeat_message))
            (session_write (encode (_comms_return_char t))
               (session_write (encode (auth_password t)) t)))
  else Continue [] (n + 1)
         (session_write (encode (_comms_return_char t))
            (session_write (encode (auth_password t)) t)).
Proof.
  intros H. apply bytes_in_lower_spec in H.
  change (prompt_seen (output ++ new_output) = true) in H.
  cbn [loop_body]. unfold answer_prompt. rewrite H. now rewrite hello_seen_nil.
Qed.

(** A turn whose accumulated bytes hold no such run. *)
Lemma loop_body_no_prompt_run new_output output n t :
  ~ (exists pre p post, output ++ new_output = pre ++ p ++ post /\ lower p = lit "password:") ->
  loop_body handler (Data new_output) output n t =
  if 1 <? n
  then exit_with
         (release_then (Raised (ScrapliAuthenticationFailed password_repeat_message)) t)
  else if hello_seen (output ++ new_output)
  then exit_with
         (release_then (Returned (output ++ new_output)) (set_isauthenticated true t))
  else Continue (output ++ new_output) n t.
Proof.
  intros H.
  assert (Hp : prompt_seen (output ++ new_output) = false).
  { destruct (prompt_seen (output ++ new_output)) eqn:E; [|reflexivity].
    exfalso. apply H. apply bytes_in_lower_spec. exact E. }
  cbn [loop_body]. unfold answer_prompt. now rewrite Hp.
Qed.

End Scans.

(** C7: in a turn of the loop both scans run over the accumulated bytes
    (the accumulator with the new bytes appended) and are substring scans
    that ignore the case of ASCII letters.  If some contiguous run of the
    accumulated bytes lowers to "password:", the turn answers the prompt;
    if none does and some run lowers to "<hello", the turn returns the
    accumulated bytes verbatim; if neither, the turn goes on with them.
    Any two casings of the prompt in the same place give the same turn, any
    casing of the greeting is returned as received, and "Password:",
    "PASSWORD:", "password:", "<HELLO" and "<hello" are such casings. *)
Theorem matching_is_case_insensitive
    (handler : bytes -> option exn) (new_output output : bytes) (n : nat) (t : Transport) :
  let accumulated := output ++ new_output in
  let answered :=
    session_write (encode (_comms_return_char t))
      (session_write (encode (auth_password t)) t) in
  let repeated := Raised (ScrapliAuthenticationFailed password_repeat_message) in
  ((exists pre p post, accumulated = pre ++ p ++ post /\ lower p = lit "password:") ->
   loop_body handler (Data new_output) output n t =
   if 1 <? n + 1 then exit_with (release_then repeated answered)
   else Continue [] (n + 1) answered) /\
  (~ (exists pre p post, accumulated = pre ++ p ++ post /\ lower p = lit "password:") ->
   (exists pre h post, accumulated = pre ++ h ++ post /\ lower h = lit "<hello") ->
   loop_body handler (Data new_output) output n t =
   if 1 <? n then exit_with (release_then repeated t)
   else exit_with (release_then (Returned accumulated) (set_isauthenticated true t))) /\
  (~ (exists pre p post, accumulated = pre ++ p ++ post /\ lower p = lit "password:") ->
   ~ (exists pre h post, accumulated = pre ++ h ++ post /\ lower h = lit "<hello") ->
   loop_body handler (Data new_output) output n t =
   if 1 <? n then exit_with (release_then repeated t)
   else Continue accumulated n t) /\
  (forall pre post p1 p2,
     lower p1 = lit "password:" -> lower p2 = lit "password:" ->
     loop_body handler (Data (pre ++ p1 ++ post)) output n t =
     loop_body handler (Data (pre ++ p2 ++ post)) output n t) /\
  (forall pre post h,
     lower h = lit "<hello" ->
     prompt_seen (output ++ pre ++ h ++ post) = false -> n <= 1 ->
     loop_body handler (Data (pre ++ h ++ post)) output n t =
     exit_with
       (release_then (Returned (output ++ pre ++ h ++ post)) (set_isauthenticated true t))) /\
  (prompt_seen accumulated = true <->
   exists pre p post, accumulated = pre ++ p ++ post /\ lower p = lit "password:") /\
  (hello_seen accumulated = true <->
   exists pre p post, accumulated = pre ++ p ++ post /\ lower p = lit "<hello") /\
  lower (lit "Password:") = lit "password:" /\
  lower (lit "PASSWORD:") = lit "password:" /\
  lower (lit "password:") = lit "password:" /\
  lower (lit "<HELLO") = lit "<hello" /\
  lower (lit "<hello") = lit "<hello".
Proof.
  cbn zeta.
  split; [apply loop_body_prompt_run|].
  split.
  { intros Hp Hh. rewrite (loop_body_no_prompt_run handler _ _ _ _ Hp).
    apply bytes_in_lower_spec in Hh.
    change (hello_seen (output ++ new_output) = true) in Hh.
    now rewrite Hh. }
  split.
  { intros Hp Hh. rewrite (loop_body_no_prompt_run handler _ _ _ _ Hp).
    destruct (hello_seen (output ++ new_output)) eqn:E; [|reflexivity].
    exfalso. apply Hh. apply bytes_in_lower_spec. exact E. }
  split.
  { intros pre post p1 p2 H1 H2.
    rewrite !loop_body_prompt_run; [reflexivity | |].
    - exists (output ++ pre), p2, post. split; [now rewrite <- app_assoc | exact H2].
    - exists (output ++ pre), p1, post. split; [now rewrite <- app_assoc | exact H1]. }
  split.
  { intros pre post h Hl Hp Hn.
    assert (Hno : ~ (exists pre' p post',
                       output ++ pre ++ h ++ post = pre' ++ p ++ post' /\
                       lower p = lit "password:")).
    { intros H. apply bytes_in_lower_spec in H.
      change (prompt_seen (output ++ pre ++ h ++ post) = true) in H. congruence. }
    rewrite (loop_body_no_prompt_run handler _ _ _ _ Hno).
    replace (1 <? n) with false by (symmetry; apply Nat.ltb_ge; exact Hn).
    assert (Hh : hello_seen (output ++ pre ++ h ++ post) = true).
    { unfold hello_seen. apply bytes_in_lower_spec. exists (output ++ pre), h, post.
      split; [now rewrite <- app_assoc | exact Hl]. }
    now rewrite Hh. }
  split; [apply bytes_in_lower_spec|].
  split; [apply bytes_in_lower_spec|].
  repeat split.
Qed.

(** A prompt in capitals inside a banner is answered; a greeting in
    capitals is returned as received. *)
Lemma matching_is_case_insensitive_witness :
  loop_body sample_handler (Data (lit "Enter PASSWORD: ")) (lit "Last login. ") 0
    (set_session_lock true sample_transport)
  = Continue [] 1
      (session_write (encode LF)
         (session_write (encode "secret") (set_session_lock true sample_transport))) /\
  loop_body sample_handler (Data (lit "LLO xmlns>")) (lit "<?xml?><HE") 1
    (set_session_lock true sample_transport)
  = Exit (Returned (lit "<?xml?><HELLO xmlns>"))
      (set_session_lock false
         (set_isauthenticated true (set_session_lock true sample_transport))).
Proof.
  split.
  - apply (proj1 (matching_is_case_insensitive sample_handler
                    (lit "Enter PASSWORD: ") (lit "Last login. ") 0
                    (set_session_lock true sample_transport))).
    exists (lit "Last login. Enter "), (lit "PASSWORD:"), (lit " ").
    split; reflexivity.
  - apply (proj1 (proj2 (matching_is_case_insensitive sample_handler
                           (lit "LLO xmlns>") (lit "<?xml?><HE") 1
                           (set_session_lock true sample_transport)))).
    + intros H. apply bytes_in_lower_spec in H. discriminate H.
    + exists (lit "<?xml?>"), (lit "<HELLO"), (lit " xmlns>").
      split; reflexivity.
Defined.

(** Any casing of the prompt, anywhere in the accumulator, is answered the
    same way. *)
Lemma prompt_casings_agree (handler : bytes -> option exn)
    (pre post p1 p2 output : bytes) (n : nat) (t : Transport) :
  lower p1 = lit "password:" -> lower p2 = lit "password:" ->
  loop_body handler (Data (pre ++ p1 ++ post)) output n t =
  loop_body handler (Data (pre ++ p2 ++ post)) output n t.
Proof.
  intros H1 H2.
  assert (S1 : prompt_seen (output ++ pre ++ p1 ++ post) = true).
  { apply bytes_in_lower_spec. exists (output ++ pre), p1, post.
    split; [now rewrite <- app_assoc | exact H1]. }
  assert (S2 : prompt_seen (output ++ pre ++ p2 ++ post) = true).
  { apply bytes_in_lower_spec. exists (output ++ pre), p2, post.
    split; [now rewrite <- app_assoc | exact H2]. }
  cbn [loop_body]. unfold answer_prompt. now rewrite S1, S2.
Qed.

(** * Keepalives and the open command *)

(** C9: both keepalive overrides raise, always, and hand the transport
    back untouched: the network one with its not-supported message, the
    standard one with its not-yet-implemented message. *)
Theorem keepalives_always_raise (t : Transport) :
  _keepalive_network t =
    (Raised (NotImplementedError "`network` style keepalives not supported with netconf"), t) /\
  _keepalive_standard t =
    (Raised (NotImplementedError "keepalives not yet implemented"), t) /\
  (forall value, fst (_keepalive_network t) <> Returned value) /\
  (forall value, fst (_keepalive_standard t) <> Returned value).
Proof. repeat split; discriminate. Qed.

(** C10: [_build_open_cmd] leaves what the base builder produced in place
    and appends to it the two tokens "-s" and "netconf", in this order;
    nothing else of the transport changes. *)
Theorem build_open_cmd_appends_subsystem
    (super_build_open_cmd : Transport -> Transport) (t : Transport) :
  let base := super_build_open_cmd t in
  let t' := _build_open_cmd super_build_open_cmd t in
  open_cmd t' = open_cmd base ++ ["-s"; "netconf"] /\
  List.length (open_cmd t') = List.length (open_cmd base) + 2 /\
  firstn (List.length (open_cmd base)) (open_cmd t') = open_cmd base /\
  skipn (List.length (open_cmd base)) (open_cmd t') = ["-s"; "netconf"] /\
  set_open_cmd (open_cmd base) t' = base.
Proof.
  intros base t'. subst base t'. unfold _build_open_cmd. cbn [open_cmd set_open_cmd].
  split; [reflexivity|]. split.
  - rewrite length_app. reflexivity.
  - split.
    + rewrite firstn_app, Nat.sub_diag, firstn_all. cbn. apply app_nil_r.
    + split.
      * rewrite skipn_app, Nat.sub_diag, skipn_all. reflexivity.
      * now destruct (super_build_open_cmd t).
Qed.

Example build_open_cmd_sample :
  open_cmd (_build_open_cmd sample_base_builder sample_transport)
  = ["ssh"; "r1"; "-o"; "StrictHostKeyChecking=yes"; "-s"; "netconf"].
Proof. reflexivity. Qed.

(** * The scenarios of the specification *)

Example scenario_login_prompt_greeting :
  exists t',
    _authenticate sample_handler
      [chunk 1 "login ok"; chunk 1 "password: "; chunk 1 "<hello xmlns=..."] sample_transport
    = Done (Returned (lit "<hello xmlns=...")) t' [] /\
    written (session t') = [lit "secret"; encode LF].
Proof. eexists. split; reflexivity. Qed.

Example scenario_prompt_twice :
  exists t',
    _authenticate sample_handler [chunk 1 "password: "; chunk 1 "password: "] sample_transport
    = Done (Raised (ScrapliAuthenticationFailed password_repeat_message)) t' [].
Proof. eexists. reflexivity. Qed.

Example scenario_eof_after_prompt :
  exists t',
    _authenticate sample_handler [chunk 1 "password: "; eof 1] sample_transport
    = Done (Raised (ScrapliAuthenticationFailed
                      "Failed to open connection to host r1. Do you need to disable `auth_strict_key`?"))
        t' [] /\
    session_lock t' = false.
Proof. eexists. split; reflexivity. Qed.

Example open_netconf_sample :
  exists t',
    open_netconf sample_handler _keepalive_standard
      [chunk 1 "Password:"; chunk 1 "<hello>"] sample_transport
    = Done (Returned (lit "<hello>")) t' [] /\
    argv (session t') = ["ssh"; "r1"].
Proof. eexists. split; reflexivity. Qed.

(** * Invariants of the login dialogue *)

Ltac crack_turn :=
  cbn [loop_body]; unfold answer_prompt, on_eof, exit_with, release_then;
  repeat match goal with
         | |- context [if ?c then _ else _] => destruct c eqn:?
         | |- context [match ?s with Some _ => _ | None => _ end] => destruct s eqn:?
         end;
  cbn [fst snd].

Lemma same_config_refl (t : Transport) : same_config t t.
Proof. unfold same_config. repeat split. Qed.

Lemma same_config_trans (t1 t2 t3 : Transport) :
  same_config t1 t2 -> same_config t2 t3 -> same_config t1 t3.
Proof.
  unfold same_config.
  intros (A1 & A2 & A3 & A4 & A5 & A6 & A7) (B1 & B2 & B3 & B4 & B5 & B6 & B7).
  repeat split; congruence.
Qed.

Lemma credential_writes_config (t t' : Transport) :
  same_config t t' -> credential_writes t' = credential_writes t.
Proof.
  intros (_ & A2 & A3 & _). unfold credential_writes. now rewrite A2, A3.
Qed.

Lemma answers_config (k : nat) (t t' : Transport) :
  same_config t t' -> answers k t' = answers k t.
Proof.
  intros H. induction k as [|k IH]; cbn [answers].
  - reflexivity.
  - now rewrite IH, (credential_writes_config t t' H).
Qed.

Lemma answers_add (j k : nat) (t : Transport) :
  answers (j + k) t = answers j t ++ answers k t.
Proof.
  induction j as [|j IH]; cbn [answers Nat.add].
  - reflexivity.
  - now rewrite IH, app_assoc.
Qed.

Section Invariants.

Variable handler : bytes -> option exn.

Lemma loop_body_config r output n t :
  same_config t (turn_transport (loop_body handler r output n t)).
Proof.
  destruct r as [new_output|]; crack_turn; cbn [turn_transport];
    unfold same_config; cbn; repeat split.
Qed.

Lemma auth_loop_config reads output n t :
  same_config t (run_transport (auth_loop handler reads output n t)).
Proof.
  revert output n t. induction reads as [|ev reads IH]; intros output n t; cbn [auth_loop].
  - apply same_config_refl.
  - pose proof (loop_body_config (payload ev) output n t) as H.
    destruct (loop_body handler (payload ev) output n t) as [o1 n1 t1 | o1 t1];
      cbn [turn_transport] in H.
    + exact (same_config_trans _ _ _ H (IH o1 n1 t1)).
    + exact H.
Qed.

Lemma authenticate_body_config reads t :
  same_config t (run_transport (authenticate_body handler reads t)).
Proof.
  unfold authenticate_body. destruct (session_lock t) eqn:E.
  - apply same_config_refl.
  - apply (same_config_trans _ (set_session_lock true t)).
    + unfold same_config. cbn. repeat split.
    + apply auth_loop_config.
Qed.

End Invariants.

Section TurnInvariant.

Variable handler : bytes -> option exn.

(** What one turn does to a loop state that holds the lock and has
    answered at most one prompt. *)
Lemma loop_body_inv r output n t :
  session_lock t = true -> n <= 1 ->
  match loop_body handler r output n t with
  | Continue output' n' t' =>
      exists new_output k,
        r = Data new_output /\ n' = n + k /\ n' <= 1 /\
        prompt_seen output' = false /\ hello_seen output' = false /\
        (exists dropped, output ++ new_output = dropped ++ output') /\
        written (session t') = written (session t) ++ answers k t /\
        session_lock t' = true /\
        _isauthenticated t' = _isauthenticated t /\
        handler_calls t' = handler_calls t
  | Exit (Returned value) t' =>
      exists new_output,
        r = Data new_output /\ value = output ++ new_output /\
        hello_seen value = true /\ prompt_seen value = false /\
        written (session t') = written (session t) /\
        session_lock t' = false /\ _isauthenticated t' = true /\
        handler_calls t' = handler_calls t
  | Exit (Raised e) t' =>
      _isauthenticated t' = _isauthenticated t /\
      ((exists new_output,
          r = Data new_output /\ n = 1 /\
          e = ScrapliAuthenticationFailed password_repeat_message /\
          written (session t') = written (session t) ++ answers 1 t /\
          session_lock t' = false /\ handler_calls t' = handler_calls t) \/
       (r = EOFError /\
        written (session t') = written (session t) /\
        handler_calls t' = handler_calls t ++ [output] /\
        ((handler output = Some e /\ session_lock t' = true) \/
         (handler output = None /\
          e = ScrapliAuthenticationFailed (strict_key_message t) /\
          session_lock t' = false))))
  end.
Proof.
  intros Hl Hn. destruct r as [new_output|].
  - cbn [loop_body]. unfold answer_prompt.
    destruct (prompt_seen (output ++ new_output)) eqn:Hp.
    + destruct (1 <? n + 1) eqn:Hc.
      * rewrite release_then_held by exact Hl. cbn [exit_with fst snd].
        apply Nat.ltb_lt in Hc. split; [reflexivity|]. left.
        exists new_output. cbn. rewrite <- app_assoc.
        repeat split. lia.
      * apply Nat.ltb_ge in Hc. rewrite hello_seen_nil.
        exists new_output, 1. cbn. rewrite <- app_assoc.
        repeat split; try assumption.
        exists (output ++ new_output). now rewrite app_nil_r.
    + replace (1 <? n) with false by (symmetry; apply Nat.ltb_ge; exact Hn).
      destruct (hello_seen (output ++ new_output)) eqn:Hh.
      * rewrite release_then_held by exact Hl. cbn [exit_with fst snd].
        exists new_output. cbn. repeat split; assumption.
      * exists new_output, 0. cbn. rewrite app_nil_r, Nat.add_0_r.
        repeat split; try assumption. now exists [].
  - cbn [loop_body]. unfold on_eof. destruct (handler output) as [e|] eqn:He.
    + cbn [exit_with fst snd]. split; [reflexivity|]. right.
      cbn. repeat split. now left.
    + rewrite release_then_held by exact Hl. cbn [exit_with fst snd].
      split; [reflexivity|]. right. cbn. repeat split. right. repeat split.
Qed.

End TurnInvariant.

Section LoopInvariant.

Variable handler : bytes -> option exn.

Lemma has_eof_cons_data ev new_output reads :
  payload ev = Data new_output -> has_eof (ev :: reads) = has_eof reads.
Proof. intros H. unfold has_eof. cbn [existsb]. now rewrite H. Qed.

Lemma received_cons_data ev new_output reads :
  payload ev = Data new_output -> received (ev :: reads) = new_output ++ received reads.
Proof. intros H. cbn [received]. now rewrite H. Qed.

(** The loop is still reading. *)
Lemma auth_loop_blocked_inv reads output n t output' n' t' :
  session_lock t = true -> n <= 1 ->
  prompt_seen output = false -> hello_seen output = false ->
  auth_loop handler reads output n t = BlockedOnRead output' n' t' ->
  exists k,
    n' = n + k /\ n' <= 1 /\
    prompt_seen output' = false /\ hello_seen output' = false /\
    has_eof reads = false /\
    (exists dropped, output ++ received reads = dropped ++ output') /\
    written (session t') = written (session t) ++ answers k t /\
    session_lock t' = true /\
    _isauthenticated t' = _isauthenticated t /\
    handler_calls t' = handler_calls t.
Proof.
  revert output n t.
  induction reads as [|ev reads IH]; intros output n t Hl Hn Hp Hh; cbn [auth_loop].
  - intros H. injection H as <- <- <-. exists 0.
    rewrite Nat.add_0_r. cbn [answers received has_eof existsb]. rewrite !app_nil_r.
    repeat split; try assumption. now exists [].
  - pose proof (loop_body_inv handler (payload ev) output n t Hl Hn) as HB.
    pose proof (loop_body_config handler (payload ev) output n t) as HC.
    destruct (loop_body handler (payload ev) output n t) as [o1 n1 t1 | o1 t1];
      [|discriminate].
    cbn [turn_transport] in HC.
    destruct HB as (new_output & k & Hr & Hn1 & Hle & Hp1 & Hh1 & (dr & Hdr) & Hw & Hl1 & Ha & Hc).
    intros H. destruct (IH o1 n1 t1 Hl1 Hle Hp1 Hh1 H)
      as (k' & En & Hle' & Hp' & Hh' & He & (dr' & Hdr') & Hw' & Hl' & Ha' & Hc').
    exists (k + k').
    rewrite (has_eof_cons_data _ _ _ Hr), (received_cons_data _ _ _ Hr).
    rewrite Hw', Hw, (answers_config k' t t1 HC), answers_add.
    repeat split; try assumption; try congruence; try lia;
      try (now rewrite <- app_assoc).
    exists (dr ++ dr'). now rewrite app_assoc, Hdr, <- app_assoc, Hdr', app_assoc.
Qed.

(** The loop has returned a value. *)
Lemma auth_loop_returned_inv reads output n t value t' unread :
  session_lock t = true -> n <= 1 ->
  auth_loop handler reads output n t = Done (Returned value) t' unread ->
  exists consumed dropped k,
    reads = consumed ++ unread /\ consumed <> [] /\ has_eof consumed = false /\
    output ++ received consumed = dropped ++ value /\
    hello_seen value = true /\ prompt_seen value = false /\
    n + k <= 1 /\
    written (session t') = written (session t) ++ answers k t /\
    session_lock t' = false /\ _isauthenticated t' = true /\
    handler_calls t' = handler_calls t.
Proof.
  revert output n t.
  induction reads as [|ev reads IH]; intros output n t Hl Hn; cbn [auth_loop].
  - discriminate.
  - pose proof (loop_body_inv handler (payload ev) output n t Hl Hn) as HB.
    pose proof (loop_body_config handler (payload ev) output n t) as HC.
    destruct (loop_body handler (payload ev) output n t) as [o1 n1 t1 | o1 t1];
      cbn [turn_transport] in HC.
    + destruct HB as (new_output & k & Hr & Hn1 & Hle & Hp1 & Hh1 & (dr & Hdr) & Hw & Hl1 & Ha & Hc).
      intros H. destruct (IH o1 n1 t1 Hl1 Hle H)
        as (consumed & dropped & k' & Er & Hne & He & Hs & Hh & Hp & Hk & Hw' & Hl' & Ha' & Hc').
      exists (ev :: consumed), (dr ++ dropped), (k + k').
      rewrite (has_eof_cons_data _ _ _ Hr), (received_cons_data _ _ _ Hr).
      rewrite Hw', Hw, (answers_config k' t t1 HC), answers_add.
      repeat split; try assumption; try congruence; try lia;
        try discriminate; try (now rewrite <- app_assoc).
      * cbn [app]. now rewrite Er.
      * now rewrite app_assoc, Hdr, <- app_assoc, Hs, app_assoc.
    + intros H. injection H as -> <- <-.
      destruct HB as (new_output & Hr & Ev & Hh & Hp & Hw & Hl' & Ha & Hc).
      exists [ev], [], 0.
      rewrite (has_eof_cons_data _ _ _ Hr), (received_cons_data _ _ _ Hr).
      cbn [answers received has_eof existsb app]. rewrite !app_nil_r, Nat.add_0_r.
      repeat split; try assumption; try congruence; try discriminate.
Qed.

(** The loop has raised. *)
Lemma auth_loop_raised_inv reads output n t e t' unread :
  session_lock t = true -> n <= 1 ->
  auth_loop handler reads output n t = Done (Raised e) t' unread ->
  exists consumed k,
    reads = consumed ++ unread /\
    _isauthenticated t' = _isauthenticated t /\
    n + k <= 2 /\
    written (session t') = written (session t) ++ answers k t /\
    ((n + k = 2 /\ has_eof consumed = false /\
      e = ScrapliAuthenticationFailed password_repeat_message /\
      session_lock t' = false /\ handler_calls t' = handler_calls t) \/
     (n + k <= 1 /\ has_eof consumed = true /\
      exists output',
        handler_calls t' = handler_calls t ++ [output'] /\
        ((handler output' = Some e /\ session_lock t' = true) \/
         (handler output' = None /\
          e = ScrapliAuthenticationFailed (strict_key_message t) /\
          session_lock t' = false)))).
Proof.
  revert output n t.
  induction reads as [|ev reads IH]; intros output n t Hl Hn; cbn [auth_loop].
  - discriminate.
  - pose proof (loop_body_inv handler (payload ev) output n t Hl Hn) as HB.
    pose proof (loop_body_config handler (payload ev) output n t) as HC.
    destruct (loop_body handler (payload ev) output n t) as [o1 n1 t1 | o1 t1];
      cbn [turn_transport] in HC.
    + destruct HB as (new_output & k & Hr & Hn1 & Hle & Hp1 & Hh1 & (dr & Hdr) & Hw & Hl1 & Ha & Hc).
      intros H. destruct (IH o1 n1 t1 Hl1 Hle H)
        as (consumed & k' & Er & Ha' & Hk & Hw' & Hcases).
      exists (ev :: consumed), (k + k').
      rewrite (has_eof_cons_data _ _ _ Hr).
      rewrite Hw', Hw, (answers_config k' t t1 HC), answers_add.
      split; [cbn [app]; now rewrite Er|].
      split; [congruence|]. split; [lia|]. split; [now rewrite <- app_assoc|].
      destruct Hcases as [(E2 & He & Ee & Hl' & Hc') | (E1 & He & out & Hc' & Hh)].
      * left. repeat split; try assumption; try congruence; lia.
      * right. split; [lia|]. split; [exact He|]. exists out.
        split; [congruence|].
        destruct Hh as [Hh | (Hn' & Ee & Hl')]; [now left | right].
        repeat split; try assumption.
        rewrite Ee. unfold strict_key_message.
        destruct HC as (-> & _). reflexivity.
    + intros H. injection H as -> <- <-.
      destruct HB as (Ha & [(new_output & Hr & En & Ee & Hw & Hl' & Hc)
                           | (Hr & Hw & Hc & Hh)]).
      * exists [ev], 1. rewrite (has_eof_cons_data _ _ _ Hr).
        cbn [app has_eof existsb]. repeat split; try assumption; try lia.
        left. repeat split; try assumption; lia.
      * exists [ev], 0. cbn [app answers]. rewrite app_nil_r.
        repeat split; try assumption; try lia.
        right. split; [lia|]. split.
        -- unfold has_eof. cbn [existsb]. now rewrite Hr.
        -- exists output. split; [exact Hc | exact Hh].
Qed.

End LoopInvariant.

(** * Properties of the body of [_authenticate] *)

Lemma answers_lock (k : nat) (l : bool) (t : Transport) :
  answers k (set_session_lock l t) = answers k t.
Proof. induction k as [|k IH]; cbn [answers]; [reflexivity | now rewrite IH]. Qed.

Section Body.

Variable handler : bytes -> option exn.

Lemma authenticate_body_done reads t o t' unread :
  authenticate_body handler reads t = Done o t' unread ->
  session_lock t = false /\
  auth_loop handler reads [] 0 (set_session_lock true t) = Done o t' unread.
Proof.
  unfold authenticate_body. destruct (session_lock t); [discriminate|]. now split.
Qed.

End Body.

Section LastRead.

Variable handler : bytes -> option exn.

(** A returning loop stops at the read that completes the greeting: the
    accumulator before that read showed neither marker. *)
Lemma auth_loop_returned_last reads output n t value t' unread :
  session_lock t = true -> n <= 1 ->
  prompt_seen output = false -> hello_seen output = false ->
  auth_loop handler reads output n t = Done (Returned value) t' unread ->
  exists init d c dropped before,
    reads = init ++ mkRead d (Data c) :: unread /\ has_eof init = false /\
    output ++ received init = dropped ++ before /\
    value = before ++ c /\
    prompt_seen before = false /\ hello_seen before = false.
Proof.
  revert output n t.
  induction reads as [|ev reads IH]; intros output n t Hl Hn Hp Hh; cbn [auth_loop].
  - discriminate.
  - pose proof (loop_body_inv handler (payload ev) output n t Hl Hn) as HB.
    destruct (loop_body handler (payload ev) output n t) as [o1 n1 t1 | o1 t1].
    + destruct HB as (new_output & k & Hr & Hn1 & Hle & Hp1 & Hh1 & (dr & Hdr) & _ & Hl1 & _).
      intros H. destruct (IH o1 n1 t1 Hl1 Hle Hp1 Hh1 H)
        as (init & d & c & dropped & before & Er & He & Hs & Ev & Hpb & Hhb).
      exists (ev :: init), d, c, (dr ++ dropped), before.
      rewrite (has_eof_cons_data _ _ _ Hr), (received_cons_data _ _ _ Hr).
      repeat split; try assumption.
      * cbn [app]. now rewrite Er.
      * now rewrite app_assoc, Hdr, <- app_assoc, Hs, app_assoc.
    + intros H. injection H as -> <- <-.
      destruct HB as (new_output & Hr & Ev & _).
      exists [], (delay ev), new_output, [], output.
      cbn [app received has_eof existsb]. rewrite app_nil_r.
      repeat split; try assumption.
      destruct ev as [d r]. cbn in Hr. now subst r.
Qed.

End LastRead.

(** X1: the value [_authenticate]'s body returns is made of received bytes
    only, and the body stops at the read that completes the greeting.  The
    reads split into the ones consumed and the ones left unread; every
    consumed read delivered data; the value is the tail, in receipt order,
    of the consumed bytes and ends with the bytes of the last consumed
    read; the greeting marker is in the value and not in the part of it
    received before that last read. *)
Theorem returned_bytes_are_received_suffix
    (handler : bytes -> option exn) (reads unread : list read_event)
    (t t' : Transport) (value : bytes) :
  authenticate_body handler reads t = Done (Returned value) t' unread ->
  exists init d c dropped before,
    reads = init ++ mkRead d (Data c) :: unread /\ has_eof init = false /\
    received init = dropped ++ before /\
    value = before ++ c /\
    hello_seen before = false /\ hello_seen value = true.
Proof.
  intros H. apply authenticate_body_done in H. destruct H as (_ & H).
  pose proof H as H'.
  apply auth_loop_returned_last in H; try reflexivity; [|lia].
  apply auth_loop_returned_inv in H'; [|reflexivity | lia].
  destruct H as (init & d & c & dropped & before & Er & He & Hs & Ev & _ & Hhb).
  destruct H' as (_ & _ & _ & _ & _ & _ & _ & Hh & _).
  exists init, d, c, dropped, before. cbn [app] in Hs. repeat split; assumption.
Qed.

Lemma returned_bytes_are_received_suffix_witness :
  exists init d c dropped before,
    [chunk 1 "banner"; chunk 1 "Password: x"; chunk 1 "ok <hel"; chunk 2 "lo>"; chunk 1 "more"]
    = init ++ mkRead d (Data c) :: [chunk 1 "more"] /\ has_eof init = false /\
    received init = dropped ++ before /\
    lit "ok <hello>" = before ++ c /\
    hello_seen before = false /\ hello_seen (lit "ok <hello>") = true.
Proof.
  apply (returned_bytes_are_received_suffix sample_handler _ _ sample_transport
           (set_session_lock false
              (set_isauthenticated true
                 (session_write (encode LF)
                    (session_write (encode "secret")
                       (set_session_lock true sample_transport)))))).
  reflexivity.
Defined.

(** X2: a value the body returns always contains the greeting marker and
    never the password prompt, whatever the case of their letters. *)
Theorem returned_bytes_hold_greeting_not_prompt
    (handler : bytes -> option exn) (reads unread : list read_event)
    (t t' : Transport) (value : bytes) :
  authenticate_body handler reads t = Done (Returned value) t' unread ->
  bytes_in (lit "<hello") (lower value) = true /\
  bytes_in (lit "password:") (lower value) = false.
Proof.
  intros H. apply authenticate_body_done in H. destruct H as (_ & H).
  apply auth_loop_returned_inv in H; [|reflexivity | lia].
  destruct H as (consumed & dropped & k & _ & _ & _ & _ & Hh & Hp & _).
  split; assumption.
Qed.

Lemma returned_bytes_hold_greeting_not_prompt_witness :
  bytes_in (lit "<hello") (lower (lit "ok <HELLO>")) = true /\
  bytes_in (lit "password:") (lower (lit "ok <HELLO>")) = false.
Proof.
  apply (returned_bytes_hold_greeting_not_prompt sample_handler
           [chunk 1 "PASSWORD: <hello>"; chunk 1 "ok <HELLO>"] [] sample_transport
           (set_session_lock false
              (set_isauthenticated true
                 (session_write (encode LF)
                    (session_write (encode "secret")
                       (set_session_lock true sample_transport)))))).
  reflexivity.
Defined.

(** X3: the authentication flag is set exactly by a successful return: it is
    true after the body returns a value, and is what it was before in every
    other case (an exception, or the body still waiting). *)
Theorem flag_set_only_by_success
    (handler : bytes -> option exn) (reads : list read_event) (t : Transport) :
  match authenticate_body handler reads t with
  | Done (Returned _) t' _ => _isauthenticated t' = true
  | r => _isauthenticated (run_transport r) = _isauthenticated t
  end.
Proof.
  destruct (authenticate_body handler reads t) as [o t' unread | output n t' | t' unread] eqn:E.
  - destruct o as [value | e]; apply authenticate_body_done in E; destruct E as (_ & E).
    + apply auth_loop_returned_inv in E; [|reflexivity | lia].
      now destruct E as (? & ? & ? & _ & _ & _ & _ & _ & _ & _ & _ & _ & Ha & _).
    + apply auth_loop_raised_inv in E; [|reflexivity | lia].
      destruct E as (? & ? & _ & Ha & _). exact Ha.
  - apply authenticate_body_blocked in E.
    destruct E as (_ & _ & _ & _ & _ & Ha). exact Ha.
  - unfold authenticate_body in E. destruct (session_lock t).
    + now injection E as <- _.
    + now apply auth_loop_never_lock in E.
Qed.

(** X4: the body writes nothing to the session but answers to prompts (the
    password, then the return character), and at most two of them: at most
    one when it returns a value or is still waiting, and two only when it
    raises the seen-multiple-times failure. *)
Theorem credential_written_at_most_twice
    (handler : bytes -> option exn) (reads : list read_event) (t : Transport) :
  exists k,
    written (session (run_transport (authenticate_body handler reads t)))
    = written (session t) ++ answers k t /\
    k <= 2 /\
    match authenticate_body handler reads t with
    | Done (Returned _) _ _ => k <= 1
    | Done (Raised e) _ _ =>
        k = 2 -> e = ScrapliAuthenticationFailed password_repeat_message
    | BlockedOnRead _ n _ => k = n /\ n <= 1
    | BlockedOnLock _ _ => k = 0
    end.
Proof.
  destruct (authenticate_body handler reads t) as [o t' unread | output n t' | t' unread] eqn:E;
    cbn [run_transport].
  - apply authenticate_body_done in E. destruct E as (_ & E). destruct o as [value | e].
    + apply auth_loop_returned_inv in E; [|reflexivity | lia].
      destruct E as (? & ? & k & _ & _ & _ & _ & _ & _ & Hk & Hw & _).
      exists k. rewrite answers_lock in Hw. cbn in Hk. repeat split; [exact Hw | lia | lia].
    + apply auth_loop_raised_inv in E; [|reflexivity | lia].
      destruct E as (? & k & _ & _ & Hk & Hw & Hcases).
      exists k. rewrite answers_lock in Hw. cbn in Hk. repeat split; [exact Hw | lia |].
      intros ->. destruct Hcases as [(_ & _ & Ee & _) | (Hk' & _)]; [exact Ee | cbn in Hk'; lia].
  - apply authenticate_body_blocked in E. destruct E as (_ & E & _).
    apply auth_loop_blocked_inv in E; try reflexivity; [|lia].
    destruct E as (k & En & Hle & _ & _ & _ & _ & Hw & _).
    exists k. rewrite answers_lock in Hw. cbn in En. subst n.
    repeat split; [exact Hw | lia | lia].
  - unfold authenticate_body in E. destruct (session_lock t).
    + injection E as <- _. exists 0. cbn [answers]. rewrite app_nil_r.
      repeat split. lia.
    + now apply auth_loop_never_lock in E.
Qed.

Lemma blocked_body_saw_no_eof
    (handler : bytes -> option exn) (reads : list read_event)
    (t t' : Transport) (output : bytes) (n : nat) :
  authenticate_body handler reads t = BlockedOnRead output n t' ->
  has_eof reads = false.
Proof.
  intros E. apply authenticate_body_blocked in E. destruct E as (_ & E & _).
  apply auth_loop_blocked_inv in E; try reflexivity; [|lia].
  now destruct E as (k & _ & _ & _ & _ & He & _).
Qed.

(** X5: while the body waits for the next read, every read so far delivered
    data, the accumulator is a tail of the received bytes that shows
    neither the prompt nor the greeting marker, at most one prompt has been
    answered, and the lock is held. *)
Theorem waiting_accumulator_is_clean
    (handler : bytes -> option exn) (reads : list read_event)
    (t t' : Transport) (output : bytes) (n : nat) :
  authenticate_body handler reads t = BlockedOnRead output n t' ->
  has_eof reads = false /\
  (exists dropped, received reads = dropped ++ output) /\
  prompt_seen output = false /\ hello_seen output = false /\
  n <= 1 /\ session_lock t' = true.
Proof.
  intros E. apply authenticate_body_blocked in E. destruct E as (_ & E & _).
  apply auth_loop_blocked_inv in E; try reflexivity; [|lia].
  destruct E as (k & En & Hle & Hp & Hh & He & Hs & _ & Hl & _).
  cbn [app] in Hs. repeat split; assumption.
Qed.

Lemma waiting_accumulator_is_clean_witness :
  has_eof [chunk 1 "banner pass"; chunk 1 "word: <hello"; chunk 1 "<hel"] = false /\
  (exists dropped,
     received [chunk 1 "banner pass"; chunk 1 "word: <hello"; chunk 1 "<hel"]
     = dropped ++ lit "<hel") /\
  prompt_seen (lit "<hel") = false /\ hello_seen (lit "<hel") = false /\
  1 <= 1 /\
  session_lock
    (session_write (encode LF)
       (session_write (encode "secret") (set_session_lock true sample_transport))) = true.
Proof.
  apply (waiting_accumulator_is_clean sample_handler
           [chunk 1 "banner pass"; chunk 1 "word: <hello"; chunk 1 "<hel"]
           sample_transport).
  reflexivity.
Defined.

(** X6: once the peer has closed, the body never keeps waiting: if some read
    of the script signals end of stream and the lock is free at entry, the
    body ends, with a return or an exception. *)
Theorem eof_always_ends_the_body
    (handler : bytes -> option exn) (reads : list read_event) (t : Transport) :
  session_lock t = false -> has_eof reads = true ->
  exists o t' unread, authenticate_body handler reads t = Done o t' unread.
Proof.
  intros Hl He.
  destruct (authenticate_body handler reads t) as [o t' unread | output n t' | t' unread] eqn:E.
  - now exists o, t', unread.
  - apply blocked_body_saw_no_eof in E. congruence.
  - unfold authenticate_body in E. rewrite Hl in E. now apply auth_loop_never_lock in E.
Qed.

Lemma eof_always_ends_the_body_witness :
  exists o t' unread,
    authenticate_body sample_handler
      [chunk 1 "Password:"; chunk 1 "Permission denied"; eof 1] sample_transport
    = Done o t' unread.
Proof.
  apply (eof_always_ends_the_body sample_handler
           [chunk 1 "Password:"; chunk 1 "Permission denied"; eof 1] sample_transport);
    reflexivity.
Defined.

(** X7: entered with the lock free, the body holds the lock while it waits
    for a read and has released it when it returns a value or raises one of
    its own failures; the lock is still held after an exception only when
    that exception was raised by the classifier at end of stream. *)
Theorem body_lock_discipline
    (handler : bytes -> option exn) (reads : list read_event) (t : Transport) :
  session_lock t = false ->
  match authenticate_body handler reads t with
  | Done (Returned _) t' _ => session_lock t' = false
  | Done (Raised e) t' _ =>
      session_lock t' = false \/
      (session_lock t' = true /\ has_eof reads = true /\
       exists output, handler output = Some e)
  | BlockedOnRead _ _ t' => session_lock t' = true
  | BlockedOnLock _ _ => False
  end.
Proof.
  intros Hl.
  destruct (authenticate_body handler reads t) as [o t' unread | output n t' | t' unread] eqn:E.
  - apply authenticate_body_done in E. destruct E as (_ & E). destruct o as [value | e].
    + apply auth_loop_returned_inv in E; [|reflexivity | lia].
      now destruct E as (? & ? & ? & _ & _ & _ & _ & _ & _ & _ & _ & Hl' & _).
    + apply auth_loop_raised_inv in E; [|reflexivity | lia].
      destruct E as (consumed & k & Er & _ & _ & _ & [(_ & _ & _ & Hl' & _)
                                     | (_ & He & out & _ & [(Hh & Hl') | (_ & _ & Hl')])]).
      * now left.
      * right. split; [exact Hl'|]. split; [|now exists out].
        rewrite Er. unfold has_eof in *. rewrite existsb_app, He. reflexivity.
      * now left.
  - apply authenticate_body_blocked in E. now destruct E as (_ & _ & Hl' & _).
  - unfold authenticate_body in E. rewrite Hl in E. now apply auth_loop_never_lock in E.
Qed.

Lemma body_lock_discipline_witness :
  session_lock
    (set_session_lock false
       (session_write (encode LF)
          (session_write (encode "secret")
             (session_write (encode LF)
                (session_write (encode "secret")
                   (set_session_lock true sample_transport)))))) = false \/
  (session_lock
     (set_session_lock false
        (session_write (encode LF)
           (session_write (encode "secret")
              (session_write (encode LF)
                 (session_write (encode "secret")
                    (set_session_lock true sample_transport)))))) = true /\
   has_eof [chunk 1 "password:"; chunk 1 "password:"] = true /\
   exists output,
     sample_handler output = Some (ScrapliAuthenticationFailed password_repeat_message)).
Proof.
  apply (body_lock_discipline sample_handler
           [chunk 1 "password:"; chunk 1 "password:"] sample_transport).
  reflexivity.
Defined.

(** X8: the body raises nothing but its two authentication failures (prompt
    seen multiple times; end of stream, with the strict-key hint) and what
    the classifier raised. *)
Theorem body_raises_only_known_errors
    (handler : bytes -> option exn) (reads unread : list read_event)
    (t t' : Transport) (e : exn) :
  authenticate_body handler reads t = Done (Raised e) t' unread ->
  e = ScrapliAuthenticationFailed password_repeat_message \/
  e = ScrapliAuthenticationFailed
        ("Failed to open connection to host " ++ host t ++
         ". Do you need to disable `auth_strict_key`?") \/
  exists output, handler output = Some e.
Proof.
  intros E. apply authenticate_body_done in E. destruct E as (_ & E).
  apply auth_loop_raised_inv in E; [|reflexivity | lia].
  destruct E as (consumed & k & _ & _ & _ & _ & [(_ & _ & Ee & _)
                                 | (_ & _ & out & _ & [(Hh & _) | (_ & Ee & _)])]).
  - now left.
  - right. right. now exists out.
  - right. left. exact Ee.
Qed.

Lemma body_raises_only_known_errors_witness :
  ScrapliAuthenticationFailed "Host key verification failed for host r1"
  = ScrapliAuthenticationFailed password_repeat_message \/
  ScrapliAuthenticationFailed "Host key verification failed for host r1"
  = ScrapliAuthenticationFailed
      ("Failed to open connection to host " ++ host sample_transport ++
       ". Do you need to disable `auth_strict_key`?") \/
  exists output,
    sample_handler output
    = Some (ScrapliAuthenticationFailed "Host key verification failed for host r1").
Proof.
  apply (body_raises_only_known_errors sample_handler
           [chunk 1 "HOST KEY VERIFICATION FAILED"; eof 1] []
           sample_transport
           (note_handler_call (lit "HOST KEY VERIFICATION FAILED")
              (set_session_lock true sample_transport))).
  reflexivity.
Defined.

(** X9: the classifier is consulted only at end of stream and at most once:
    the body leaves the log of its calls as it was unless a read signalled
    end of stream, and then adds exactly one call. *)
Theorem classifier_called_only_at_eof
    (handler : bytes -> option exn) (reads : list read_event) (t : Transport) :
  let t' := run_transport (authenticate_body handler reads t) in
  handler_calls t' = handler_calls t \/
  (has_eof reads = true /\ exists output, handler_calls t' = handler_calls t ++ [output]).
Proof.
  cbn zeta.
  destruct (authenticate_body handler reads t) as [o t' unread | output n t' | t' unread] eqn:E;
    cbn [run_transport].
  - apply authenticate_body_done in E. destruct E as (_ & E). destruct o as [value | e].
    + apply auth_loop_returned_inv in E; [|reflexivity | lia].
      left. now destruct E as (? & ? & ? & _ & _ & _ & _ & _ & _ & _ & _ & _ & _ & Hc).
    + apply auth_loop_raised_inv in E; [|reflexivity | lia].
      destruct E as (consumed & k & Er & _ & _ & _ & [(_ & _ & _ & _ & Hc)
                                     | (_ & He & out & Hc & _)]).
      * now left.
      * right. split; [|now exists out].
        rewrite Er. unfold has_eof in *. rewrite existsb_app, He. reflexivity.
  - left. apply authenticate_body_blocked in E. now destruct E as (_ & _ & _ & Hc & _).
  - left. unfold authenticate_body in E. destruct (session_lock t).
    + now injection E as <- _.
    + now apply auth_loop_never_lock in E.
Qed.

(** X10: a peer that greets without ever prompting (the key was accepted): the
    body returns every byte received from the start up to and including
    the read that completes the marker, writes nothing to the session, sets
    the flag and changes nothing else. *)
Theorem greeting_without_prompt_returns_everything
    (handler : bytes -> option exn)
    (q rest : list read_event) (d : nat) (c : bytes) (t : Transport) :
  session_lock t = false ->
  quiet [] q = true ->
  prompt_seen (received q ++ c) = false -> hello_seen (received q ++ c) = true ->
  authenticate_body handler (q ++ mkRead d (Data c) :: rest) t
  = Done (Returned (received q ++ c)) (set_isauthenticated true t) rest.
Proof.
  intros Hl Hq Hp Hh. unfold authenticate_body. rewrite Hl.
  rewrite (auth_loop_blocked_app handler q _ _ _ _ _ _ _
             (auth_loop_quiet handler q [] 0 _ (Nat.le_0_l 1) Hq)).
  cbn [auth_loop payload app].
  rewrite loop_body_hello; [|lia | reflexivity | exact Hp | exact Hh].
  f_equal. destruct t. cbn in *. now subst.
Qed.

Lemma greeting_without_prompt_returns_everything_witness :
  authenticate_body sample_handler
    [chunk 1 "Welcome"; chunk 1 " <he"; chunk 1 "llo xmlns"; chunk 1 "more"] sample_transport
  = Done (Returned (lit "Welcome <hello xmlns")) (set_isauthenticated true sample_transport)
      [chunk 1 "more"].
Proof.
  apply (greeting_without_prompt_returns_everything sample_handler
           [chunk 1 "Welcome"; chunk 1 " <he"] [chunk 1 "more"] 1 (lit "llo xmlns")
           sample_transport);
    reflexivity.
Defined.

(** * Letter case across a whole dialogue *)

Section LetterCase.

Variable handler : bytes -> option exn.
Hypothesis handler_ignores_case :
  forall o1 o2, lower o1 = lower o2 -> handler o1 = handler o2.

Lemma prompt_seen_lower o1 o2 : lower o1 = lower o2 -> prompt_seen o1 = prompt_seen o2.
Proof. unfold prompt_seen. now intros ->. Qed.

Lemma hello_seen_lower o1 o2 : lower o1 = lower o2 -> hello_seen o1 = hello_seen o2.
Proof. unfold hello_seen. now intros ->. Qed.

Lemma auth_loop_modulo_case reads1 reads2 :
  Forall2 same_case reads1 reads2 ->
  forall out1 out2 n t,
    lower out1 = lower out2 ->
    same_run_modulo_case (auth_loop handler reads1 out1 n t)
                         (auth_loop handler reads2 out2 n t).
Proof.
  induction 1 as [|e1 e2 reads1 reads2 [_ He] Hrest IH]; intros out1 out2 n t Ho;
    cbn [auth_loop same_run_modulo_case].
  - repeat split. exact Ho.
  - destruct (payload e1) as [a|], (payload e2) as [b|]; try contradiction.
    + assert (Hab : lower (out1 ++ a) = lower (out2 ++ b))
        by now rewrite !lower_app, Ho, He.
      cbn [loop_body]. unfold answer_prompt.
      rewrite (prompt_seen_lower _ _ Hab).
      destruct (prompt_seen (out2 ++ b)).
      * destruct (1 <? n + 1).
        -- unfold release_then, exit_with.
           destruct (session_lock _); cbn [fst snd same_run_modulo_case];
             repeat split; assumption.
        -- rewrite hello_seen_nil. now apply IH.
      * destruct (1 <? n).
        -- unfold release_then, exit_with.
           destruct (session_lock t); cbn [fst snd same_run_modulo_case];
             repeat split; assumption.
        -- rewrite (hello_seen_lower _ _ Hab).
           destruct (hello_seen (out2 ++ b)).
           ++ unfold release_then, exit_with. cbn [session_lock set_isauthenticated].
              destruct (session_lock t); cbn [fst snd same_run_modulo_case lower_outcome];
                repeat split; try assumption. now rewrite Hab.
           ++ now apply IH.
    + cbn [loop_body]. unfold on_eof. rewrite (handler_ignores_case _ _ Ho).
      destruct (handler out2) as [e|].
      * cbn [exit_with fst snd same_run_modulo_case]. repeat split. exact Hrest.
      * unfold release_then, exit_with. cbn [session_lock note_handler_call].
        destruct (session_lock t); cbn [fst snd same_run_modulo_case];
          repeat split; assumption.
Qed.

End LetterCase.

(** X11: the case of ASCII letters in what the peer sends never changes the
    course of the dialogue: for a classifier that ignores case, two scripts
    whose reads agree up to case end the same way, with the same exception
    or with returned bytes that agree up to case, the same writes to the
    session, the same lock state and the same flag. *)
Theorem dialogue_ignores_letter_case
    (handler : bytes -> option exn) (reads1 reads2 : list read_event) (t : Transport) :
  (forall o1 o2, lower o1 = lower o2 -> handler o1 = handler o2) ->
  Forall2 same_case reads1 reads2 ->
  same_run_modulo_case (authenticate_body handler reads1 t)
                       (authenticate_body handler reads2 t).
Proof.
  intros Hh HF. unfold authenticate_body. destruct (session_lock t).
  - cbn [same_run_modulo_case]. now split.
  - now apply auth_loop_modulo_case.
Qed.

Lemma sample_handler_ignores_case (o1 o2 : bytes) :
  lower o1 = lower o2 -> sample_handler o1 = sample_handler o2.
Proof. unfold sample_handler. now intros ->. Qed.

Lemma dialogue_ignores_letter_case_witness :
  same_run_modulo_case
    (authenticate_body sample_handler
       [chunk 1 "Login OK"; chunk 2 "PASSWORD: "; chunk 1 "<HELLO XMLNS>"] sample_transport)
    (authenticate_body sample_handler
       [chunk 1 "login ok"; chunk 2 "Password: "; chunk 1 "<hello xmlns>"] sample_transport).
Proof.
  apply (dialogue_ignores_letter_case sample_handler
           [chunk 1 "Login OK"; chunk 2 "PASSWORD: "; chunk 1 "<HELLO XMLNS>"]
           [chunk 1 "login ok"; chunk 2 "Password: "; chunk 1 "<hello xmlns>"]
           sample_transport).
  - exact sample_handler_ignores_case.
  - repeat constructor.
Defined.

(** * Opening the session *)

Section Opening.

Variable handler : bytes -> option exn.

Lemma authenticate_config reads t :
  same_config t (run_transport (_authenticate handler reads t)).
Proof.
  unfold _authenticate, operation_timeout.
  destruct (arrived_by (_timeout_ops t) reads) as [now later].
  pose proof (authenticate_body_config handler now t) as H.
  destruct (authenticate_body handler now t) as [o t' unread | output n t' | t' unread];
    cbn [run_transport] in *.
  - exact H.
  - apply (same_config_trans _ _ _ H). unfold same_config. cbn. repeat split.
  - apply (same_config_trans _ _ _ H). unfold same_config. cbn. repeat split.
Qed.

Lemma open_netconf_pty_config reads t :
  let t' := run_transport (_open_netconf_pty handler reads t) in
  argv (session t') = open_cmd t /\
  host t' = host t /\ auth_password t' = auth_password t /\
  _comms_return_char t' = _comms_return_char t /\ _timeout_ops t' = _timeout_ops t /\
  keepalive t' = keepalive t /\ open_cmd t' = open_cmd t.
Proof.
  cbn zeta. unfold _open_netconf_pty.
  destruct (authenticate_config reads (set_session (spawn (open_cmd t)) t))
    as (A1 & A2 & A3 & A4 & A5 & A6 & A7).
  repeat split; assumption.
Qed.

End Opening.

(** X13: [_open_netconf_pty] starts the process with exactly the tokens of
    [open_cmd] and, however the authentication ends, leaves host,
    credentials, timeout, keepalive setting and [open_cmd] as they were; on
    a transport prepared by [_build_open_cmd] the process is therefore
    started with the base tokens followed by "-s" and "netconf". *)
Theorem open_netconf_pty_spawns_open_cmd
    (handler : bytes -> option exn) (super_build_open_cmd : Transport -> Transport)
    (reads : list read_event) (t : Transport) :
  let t' := run_transport (_open_netconf_pty handler reads t) in
  let built := run_transport
                 (_open_netconf_pty handler reads (_build_open_cmd super_build_open_cmd t)) in
  argv (session t') = open_cmd t /\
  host t' = host t /\ auth_password t' = auth_password t /\
  _comms_return_char t' = _comms_return_char t /\ _timeout_ops t' = _timeout_ops t /\
  keepalive t' = keepalive t /\ open_cmd t' = open_cmd t /\
  argv (session built) = open_cmd (super_build_open_cmd t) ++ ["-s"; "netconf"].
Proof.
  cbn zeta.
  destruct (open_netconf_pty_config handler reads t) as (A1 & A2 & A3 & A4 & A5 & A6 & A7).
  destruct (open_netconf_pty_config handler reads (_build_open_cmd super_build_open_cmd t))
    as (B1 & _).
  repeat split; assumption.
Qed.

(** X14: [open_netconf] hands on what the authentication produced: a failure
    is raised as it is and the keepalive is not started; with keepalive
    off the result is that of [_open_netconf_pty]; with keepalive on, the
    login bytes are returned unchanged after the keepalive starter, unless
    the starter raises.  The keepalive setting consulted is the one the
    transport was opened with. *)
Theorem open_netconf_passes_login_bytes
    (handler : bytes -> option exn)
    (_session_keepalive : Transport -> outcome * Transport)
    (reads : list read_event) (t : Transport) :
  match _open_netconf_pty handler reads t with
  | Done (Returned login_bytes) t0 unread =>
      open_netconf handler _session_keepalive reads t =
      if keepalive t
      then match _session_keepalive t0 with
           | (Raised e, t1) => Done (Raised e) t1 unread
           | (Returned _, t1) => Done (Returned login_bytes) t1 unread
           end
      else Done (Returned login_bytes) t0 unread
  | r => open_netconf handler _session_keepalive reads t = r
  end.
Proof.
  pose proof (open_netconf_pty_config handler reads t) as H. cbn zeta in H.
  unfold open_netconf.
  destruct (_open_netconf_pty handler reads t) as [o t0 unread | output n t0 | t0 unread];
    cbn [run_transport] in H; try reflexivity.
  destruct o as [login_bytes | e]; [|reflexivity].
  destruct H as (_ & _ & _ & _ & _ & -> & _). reflexivity.
Qed.

Lemma answers_session (k : nat) (p : PtyProcess) (t : Transport) :
  answers k (set_session p t) = answers k t.
Proof. induction k as [|k IH]; cbn [answers]; [reflexivity | now rewrite IH]. Qed.

(** A value leaves the decorated routine only if its body returned it. *)
Lemma authenticate_returned_body handler reads t value t' unread :
  _authenticate handler reads t = Done (Returned value) t' unread ->
  exists now unread',
    authenticate_body handler now t = Done (Returned value) t' unread'.
Proof.
  unfold _authenticate, operation_timeout.
  destruct (arrived_by (_timeout_ops t) reads) as [now later].
  destruct (authenticate_body handler now t) as [o t0 u0 | ? ? ? | ? ?] eqn:E;
    [|discriminate | discriminate].
  intros H. injection H as -> -> _. now exists now, u0.
Qed.

(** X15: when [open_netconf] returns login bytes, the authentication on the
    freshly spawned process succeeded: the process was started with
    [open_cmd], the flag is set, the lock is free, the password was
    submitted to that process at most once and nothing else was written to
    it, and the bytes contain the greeting marker and no password prompt. *)
Theorem open_netconf_success_means_authenticated
    (handler : bytes -> option exn)
    (_session_keepalive : Transport -> outcome * Transport)
    (reads unread : list read_event) (t t' : Transport) (login_bytes : bytes) :
  open_netconf handler _session_keepalive reads t = Done (Returned login_bytes) t' unread ->
  exists t0 k,
    _open_netconf_pty handler reads t = Done (Returned login_bytes) t0 unread /\
    argv (session t0) = open_cmd t /\
    _isauthenticated t0 = true /\ session_lock t0 = false /\
    written (session t0) = answers k t /\ k <= 1 /\
    hello_seen login_bytes = true /\ prompt_seen login_bytes = false.
Proof.
  intros H.
  assert (Hpty : exists t0,
             _open_netconf_pty handler reads t = Done (Returned login_bytes) t0 unread).
  { unfold open_netconf in H.
    destruct (_open_netconf_pty handler reads t) as [o t0 u0 | ? ? ? | ? ?];
      [|discriminate | discriminate].
    destruct o as [v0 | e]; [|discriminate].
    destruct (keepalive t0).
    - destruct (_session_keepalive t0) as [[v1 | e1] t1]; [|discriminate].
      injection H as -> _ ->. now exists t0.
    - injection H as -> _ ->. now exists t0. }
  destruct Hpty as (t0 & Hpty). exists t0.
  pose proof (open_netconf_pty_config handler reads t) as Hcfg. cbn zeta in Hcfg.
  rewrite Hpty in Hcfg. cbn [run_transport] in Hcfg. destruct Hcfg as (Hargv & _).
  pose proof Hpty as Hauth. unfold _open_netconf_pty in Hauth.
  apply authenticate_returned_body in Hauth. destruct Hauth as (now & u' & Hb).
  apply authenticate_body_done in Hb. destruct Hb as (_ & Hb).
  apply auth_loop_returned_inv in Hb; [|reflexivity | lia].
  destruct Hb as (? & ? & k & _ & _ & _ & _ & Hh & Hp & Hk & Hw & Hl & Ha & _).
  exists k. rewrite answers_lock, answers_session in Hw. cbn in Hw, Hk.
  repeat split; assumption.
Qed.

Lemma open_netconf_success_means_authenticated_witness :
  exists t0 k,
    _open_netconf_pty sample_handler
      [chunk 1 "Password:"; chunk 1 "<hello>"] sample_transport
    = Done (Returned (lit "<hello>")) t0 [] /\
    argv (session t0) = open_cmd sample_transport /\
    _isauthenticated t0 = true /\ session_lock t0 = false /\
    written (session t0) = answers k sample_transport /\ k <= 1 /\
    hello_seen (lit "<hello>") = true /\ prompt_seen (lit "<hello>") = false.
Proof.
  apply (open_netconf_success_means_authenticated sample_handler _keepalive_standard
           [chunk 1 "Password:"; chunk 1 "<hello>"] [] sample_transport
           (set_session_lock false
              (set_isauthenticated true
                 (session_write (encode LF)
                    (session_write (encode "secret")
                       (set_session_lock true
                          (set_session (spawn (open_cmd sample_transport))
                             sample_transport))))))).
  reflexivity.
Defined.

(** * Chunking *)

(** X12: how the peer's bytes are cut into reads does not matter as long as
    no read completes a prompt or a greeting early: with the lock free at
    entry, a quiet stretch of reads followed by one more read leads the
    body to the same end as a single read delivering all their bytes at
    once. *)
Theorem reads_can_be_coalesced
    (handler : bytes -> option exn)
    (q rest : list read_event) (d d' : nat) (c : bytes) (t : Transport) :
  session_lock t = false ->
  quiet [] q = true ->
  authenticate_body handler (q ++ mkRead d (Data c) :: rest) t
  = authenticate_body handler (mkRead d' (Data (received q ++ c)) :: rest) t.
Proof.
  intros Hl Hq. unfold authenticate_body. rewrite Hl.
  rewrite (auth_loop_blocked_app handler q _ _ _ _ _ _ _
             (auth_loop_quiet handler q [] 0 _ (Nat.le_0_l 1) Hq)).
  reflexivity.
Qed.

Lemma reads_can_be_coalesced_witness :
  authenticate_body sample_handler
    [chunk 1 "Last login"; chunk 1 " pass"; chunk 1 "word: "; chunk 1 "<hello>"]
    sample_transport
  = authenticate_body sample_handler
      [chunk 3 "Last login password: "; chunk 1 "<hello>"] sample_transport.
Proof.
  apply (reads_can_be_coalesced sample_handler
           [chunk 1 "Last login"; chunk 1 " pass"] [chunk 1 "<hello>"] 1 3
           (lit "word: ") sample_transport);
    reflexivity.
Defined.
